(** * Backend/fastapi_app.py: session index cache and document lifecycle

    A shallow embedding of the request handlers of [Backend/fastapi_app.py]
    (upload, ingestion, query, delete, listing) as state-passing functions
    over the process' global dictionaries, the object heap holding the FAISS
    indexes, and the persisted layout (upload directory, embeddings
    directory, [pdf_metadata] table). *)

From Stdlib Require Import Ascii String.
From stdpp Require Import gmap list sorting fin_maps.

Local Open Scope Z_scope.

(** ** Python strings *)

(** A Python [str] is a sequence of Unicode code points; comparison, slicing
    and [len] all work on code points. *)
Abbreviation str := (list N) (only parsing).

(** ASCII literals. *)
Definition py (s : string) : str := N_of_ascii <$> list_ascii_of_string s.
Global Arguments py : simpl never.

(** [a <= b] on [str]: lexicographic on code points, a proper prefix first. *)
Fixpoint str_leb (a b : str) : bool :=
  match a, b with
  | [], _ => true
  | _ :: _, [] => false
  | x :: a', y :: b' =>
      if (x <? y)%N then true
      else if (y <? x)%N then false
      else str_leb a' b'
  end.

Definition str_le (a b : str) : Prop := str_leb a b = true.

Global Instance str_le_dec : RelDecision str_le.
Proof. intros a b. unfold str_le. apply _. Defined.

(** [s.endswith(suffix)] *)
Definition endswith (s suffix : str) : bool :=
  bool_decide (drop (length s - length suffix) s = suffix).

(** [s[:n]] for [n >= 0] *)
Definition slice_to (n : nat) (s : str) : str := take n s.

(** ** File names *)

(** The bytes a code point takes in UTF-8. *)
Definition utf8_length (c : N) : nat :=
  if (c <? 128)%N then 1 else if (c <? 2048)%N then 2
  else if (c <? 65536)%N then 3 else 4.

(** What one entry of a directory can be called: a Unicode scalar value
    other than NUL and the separator [/]. *)
Definition name_char (c : N) : bool :=
  negb (c =? 0)%N && negb (c =? 47)%N &&
  ((c <? 55296)%N || ((57343 <? c)%N && (c <? 1114112)%N)).

(** A string that names exactly one entry of whatever directory it is
    appended to (POSIX, names of at most 255 bytes): not empty, not [.] or
    [..], made of [name_char]s.  Under [dir/] such a name denotes the entry
    of that name in [dir] and nothing else. *)
Definition plain_name (name : str) : bool :=
  negb (bool_decide (name = [])) &&
  negb (bool_decide (name = py ".")) && negb (bool_decide (name = py "..")) &&
  forallb name_char name &&
  bool_decide (sum_list (utf8_length <$> name) ≤ 255)%nat.

(** What a path handed to [open] must not hold: NUL ("embedded null
    byte"), or a surrogate that the file-system encoding (UTF-8 with
    [surrogateescape]) cannot encode, that is one outside U+DC80..U+DCFF. *)
Definition unencodable (c : N) : bool :=
  (c =? 0)%N || ((55296 <=? c)%N && (c <? 56448)%N) ||
  ((56575 <? c)%N && (c <=? 57343)%N).

(** The part of a name before its first [/]. *)
Fixpoint before_slash (name : str) : str :=
  match name with
  | [] => []
  | c :: name' => if (c =? 47)%N then [] else c :: before_slash name'
  end.

(** A name that asks for an entry inside a sub-directory: a plain name,
    then [/], then anything that can be encoded. *)
Definition nested_name (name : str) : bool :=
  bool_decide (47%N ∈ name) && plain_name (before_slash name) &&
  negb (existsb unencodable name).

(** ** Session keys *)

(** [tuple(sorted(set(ids)))], lines 232-233.  [set] forgets order and
    multiplicity, [sorted] lists the members in ascending order. *)
Definition canonical_key (ids : list str) : list str :=
  merge_sort str_le (elements (list_to_set ids : gset str)).

(** ** Values *)

(** A retrieved chunk, langchain's [Document]. *)
Record Document := { page_content : str }.

Global Instance Document_eq_dec : EqDecision Document.
Proof. solve_decision. Defined.

(** A FAISS index: the chunks it can return, in insertion order.  The
    vectors themselves belong to the embedding collaborator. *)
Abbreviation FAISS := (list Document) (only parsing).

(** Index objects live on the heap; [is] compares addresses. *)
Abbreviation loc := nat (only parsing).

(** One conversation turn, [(question, answer)]. *)
Abbreviation turn := (list N * list N)%type (only parsing).

(** [documents[document_id]], a dict with keys "vector_store" and
    "chat_history". *)
Record doc_entry := { vector_store : loc; chat_history : list turn }.

(** A row of the [pdf_metadata] table. *)
Record metadata_row := {
  row_document_id : str;
  row_filename : str;
  row_upload_date : str;
  row_size : Z }.

Record UploadFile := { filename : str; file : list N }.

Record PdfUploadResponse := { document_id : str; message : str }.

Record QueryRequest := { document_ids : list str; query : str }.

Record QueryResponse := { answer : str; sources : list str }.

(** [uploads/{document_id}/{filename}] *)
Record upload_path := { path_dir : str; path_name : str }.

(** A call [process_pdf(file_path, document_id)] handed to
    [background_tasks.add_task]. *)
Record task := { task_file_path : upload_path; task_document_id : str }.

(** What [result.get("context", [])] may be, as far as the handler
    inspects it (lines 291-295). *)
Inductive retrieved :=
  | WithPageContent (content : str)
  | Opaque (repr : str).

Inductive context_value :=
  | HasGetContent (content : str)
  | ContextList (docs : list retrieved)
  | ContextOther.

(** ** Exceptions *)

Inductive exn :=
  | HTTPException (status_code : Z) (detail : str)
  | IndexError
  | RuntimeError      (* faiss cannot open the index file *)
  | IntegrityError    (* sqlite3: PRIMARY KEY constraint *)
  | OSError           (* [open] cannot create the file *)
  | ValueError        (* [open] cannot take the path: NUL, encoding *)
  | UpstreamError.    (* raised inside an embedding or completion call *)

Inductive result (A : Type) :=
  | Ok (a : A)
  | Raise (e : exn).
Global Arguments Ok {A} a.
Global Arguments Raise {A} e.

(** The status the server answers with: an [HTTPException] carries its own,
    anything else escapes the handler and becomes 500. *)
Definition http_status (e : exn) : Z :=
  match e with
  | HTTPException status_code _ => status_code
  | _ => 500
  end.

(** The spec's error taxonomy ([NotFound], [UnsupportedType], collaborator
    failures), as far as the handlers raise it on purpose. *)
Definition in_taxonomy (e : exn) : bool :=
  match e with
  | HTTPException _ _ | UpstreamError => true
  | _ => false
  end.

(** ** Process state *)

(** The directories [uploads/{id}] and [embeddings/{id}] are kept as maps
    from the id to the directory's content: an id is read as the name of
    one directory entry, which it is when it is a [plain_name].  (A string
    such as the empty one, [..] or one with a separator would denote some
    other path; requests with such ids are not covered, and the statements
    that depend on what exists on disk ask for plain names.) *)
Record state := {
  (* module globals, lines 87-89 *)
  documents : gmap str doc_entry;
  multi_chat_histories : gmap (list str) (list turn);
  merged_vector_stores : gmap (list str) loc;
  (* the FAISS objects those dictionaries point to *)
  heap : list FAISS;
  (* persisted layout *)
  uploads : gmap str (gmap str (list N));
  embeddings : gmap str FAISS;
  pdf_metadata : list metadata_row;
  (* tasks added with [add_task] and not run yet *)
  background_tasks : list task;
  (* how many uuids were drawn and how often the clock was read *)
  uuid_count : nat;
  clock_count : nat }.

Definition set_documents f s :=
  {| documents := f (documents s); multi_chat_histories := multi_chat_histories s;
     merged_vector_stores := merged_vector_stores s; heap := heap s;
     uploads := uploads s; embeddings := embeddings s; pdf_metadata := pdf_metadata s;
     background_tasks := background_tasks s; uuid_count := uuid_count s;
     clock_count := clock_count s |}.
Definition set_multi_chat_histories f s :=
  {| documents := documents s; multi_chat_histories := f (multi_chat_histories s);
     merged_vector_stores := merged_vector_stores s; heap := heap s;
     uploads := uploads s; embeddings := embeddings s; pdf_metadata := pdf_metadata s;
     background_tasks := background_tasks s; uuid_count := uuid_count s;
     clock_count := clock_count s |}.
Definition set_merged_vector_stores f s :=
  {| documents := documents s; multi_chat_histories := multi_chat_histories s;
     merged_vector_stores := f (merged_vector_stores s); heap := heap s;
     uploads := uploads s; embeddings := embeddings s; pdf_metadata := pdf_metadata s;
     background_tasks := background_tasks s; uuid_count := uuid_count s;
     clock_count := clock_count s |}.
Definition set_heap f s :=
  {| documents := documents s; multi_chat_histories := multi_chat_histories s;
     merged_vector_stores := merged_vector_stores s; heap := f (heap s);
     uploads := uploads s; embeddings := embeddings s; pdf_metadata := pdf_metadata s;
     background_tasks := background_tasks s; uuid_count := uuid_count s;
     clock_count := clock_count s |}.
Definition set_uploads f s :=
  {| documents := documents s; multi_chat_histories := multi_chat_histories s;
     merged_vector_stores := merged_vector_stores s; heap := heap s;
     uploads := f (uploads s); embeddings := embeddings s; pdf_metadata := pdf_metadata s;
     background_tasks := background_tasks s; uuid_count := uuid_count s;
     clock_count := clock_count s |}.
Definition set_embeddings f s :=
  {| documents := documents s; multi_chat_histories := multi_chat_histories s;
     merged_vector_stores := merged_vector_stores s; heap := heap s;
     uploads := uploads s; embeddings := f (embeddings s); pdf_metadata := pdf_metadata s;
     background_tasks := background_tasks s; uuid_count := uuid_count s;
     clock_count := clock_count s |}.
Definition set_pdf_metadata f s :=
  {| documents := documents s; multi_chat_histories := multi_chat_histories s;
     merged_vector_stores := merged_vector_stores s; heap := heap s;
     uploads := uploads s; embeddings := embeddings s; pdf_metadata := f (pdf_metadata s);
     background_tasks := background_tasks s; uuid_count := uuid_count s;
     clock_count := clock_count s |}.
Definition set_background_tasks f s :=
  {| documents := documents s; multi_chat_histories := multi_chat_histories s;
     merged_vector_stores := merged_vector_stores s; heap := heap s;
     uploads := uploads s; embeddings := embeddings s; pdf_metadata := pdf_metadata s;
     background_tasks := f (background_tasks s); uuid_count := uuid_count s;
     clock_count := clock_count s |}.
Definition set_uuid_count f s :=
  {| documents := documents s; multi_chat_histories := multi_chat_histories s;
     merged_vector_stores := merged_vector_stores s; heap := heap s;
     uploads := uploads s; embeddings := embeddings s; pdf_metadata := pdf_metadata s;
     background_tasks := background_tasks s; uuid_count := f (uuid_count s);
     clock_count := clock_count s |}.
Definition set_clock_count f s :=
  {| documents := documents s; multi_chat_histories := multi_chat_histories s;
     merged_vector_stores := merged_vector_stores s; heap := heap s;
     uploads := uploads s; embeddings := embeddings s; pdf_metadata := pdf_metadata s;
     background_tasks := background_tasks s; uuid_count := uuid_count s;
     clock_count := f (clock_count s) |}.

(** The process right after start-up: empty dictionaries, empty
    directories (lines 22-23), empty table (lines 35-43). *)
Definition init : state :=
  {| documents := ∅; multi_chat_histories := ∅; merged_vector_stores := ∅;
     heap := []; uploads := ∅; embeddings := ∅; pdf_metadata := [];
     background_tasks := []; uuid_count := 0; clock_count := 0 |}.

(** ** Handlers as state transformers that may raise *)

(** A raised exception keeps the effects that happened before it. *)
Definition M (A : Type) : Type := state → result A * state.

Definition ret {A} (a : A) : M A := λ s, (Ok a, s).
Definition raise {A} (e : exn) : M A := λ s, (Raise e, s).
Definition bind {A B} (m : M A) (k : A → M B) : M B :=
  λ s, match m s with
       | (Ok a, s') => k a s'
       | (Raise e, s') => (Raise e, s')
       end.
Definition get {A} (f : state → A) : M A := λ s, (Ok (f s), s).
Definition modify (f : state → state) : M unit := λ s, (Ok tt, f s).

Global Instance M_ret : MRet M := @ret.
Global Instance M_bind : MBind M := λ A B k m, bind m k.

(** ** External collaborators *)

(** Library calls whose code is not part of the backend: the handlers only
    rely on their signatures. *)
Class Collaborators := {
  (* [str.lower] *)
  lower : str → str;
  (* [str(uuid.uuid4())], the n-th draw *)
  uuid4 : nat → str;
  (* [datetime.utcnow().isoformat()], the n-th reading *)
  utcnow : nat → str;
  (* [pymupdf4llm.to_markdown] on the file's bytes ([None]: no such file);
     [inr msg] when it raises, [msg] being [str(e)] *)
  to_markdown : option (list N) → str + str;
  (* [RecursiveCharacterTextSplitter(chunk_size, chunk_overlap).split_text] *)
  split_text : nat → nat → str → list str;
  (* whether [FAISS.from_texts] succeeds on these chunks, that is whether
     the embedding model answers for them *)
  embed_documents : list str → bool;
  (* [as_retriever(search_type="similarity", search_kwargs={"k": k})] run
     on a question; [None] when the embedding call raises *)
  similarity_search : FAISS → str → nat → option (list Document);
  (* the document chain: system prompt, context, input, chat history;
     [None] when the completion call raises *)
  completion : str → list Document → str → list turn → option str;
  (* [open(f"uploads/{id}/{name}", "wb")] and the copy, for a name that
     is neither plain nor nested ([./x.pdf], [../x.pdf], a very long name):
     the upload directories afterwards, [None] when it raises; a file
     that such a name creates outside [uploads/] is not part of the state *)
  open_elsewhere :
    gmap str (gmap str (list N)) → str → str → list N →
    option (gmap str (gmap str (list N))) }.

Section Backend.
Context `{Collaborators}.

(** *** Heap *)

Definition alloc (vs : FAISS) : M loc :=
  λ s, (Ok (length (heap s)), set_heap (λ h, h ++ [vs]) s).

Definition deref (s : state) (l : loc) : FAISS := default [] (heap s !! l).

(** [self.merge_from(target)]: the receiver absorbs the target's entries;
    faiss moves the vectors, so the target is left without searchable
    content.  The two objects are taken to hold different docstore ids, as
    objects built by different [from_texts] calls and their loaded copies
    do; the library raises ValueError when the receiver already holds an
    id of the target (a second copy of the same persisted index, the same
    object merged twice), which is outside this model. *)
Definition merge_from (self target : loc) : M unit :=
  modify (set_heap (λ h,
    <[target := []]> (<[self := default [] (h !! self) ++ default [] (h !! target)]> h))).

(** *** Ingestion, lines 91-130 *)

Definition read_upload (p : upload_path) (s : state) : option (list N) :=
  uploads s !! path_dir p ≫= λ d, d !! path_name p.

Definition extract_text (pdf_path : upload_path) : M str :=
  content ← get (read_upload pdf_path);
  match to_markdown content with
  | inl text => ret text
  | inr e => raise (HTTPException 500 (py "Error extracting text: " ++ e))
  end.

(** [FAISS.from_texts(chunks, embeddings)] *)
Definition from_texts (chunks : list str) : M loc :=
  if embed_documents chunks then alloc (Build_Document <$> chunks)
  else raise UpstreamError.

(** [vs.save_local(f"embeddings/{document_id}")] *)
Definition save_local (vs : loc) (document_id : str) : M unit :=
  λ s, (Ok tt, set_embeddings <[document_id := deref s vs]> s).

Definition create_vector_store (text : str) (document_id : str) : M loc :=
  let chunks := split_text 1000 200 text in
  vs ← from_texts chunks;
  save_local vs document_id;;
  ret vs.

Definition process_pdf (file_path : upload_path) (document_id : str) : M unit :=
  text ← extract_text file_path;
  vs ← create_vector_store text document_id;
  modify (set_documents
            <[document_id := {| vector_store := vs; chat_history := [] |}]>).

(** *** Merging a list of indexes, lines 132-149 *)

(** [for vs in vector_stores[1:]], skipping the base object itself. *)
Fixpoint merge_others (base_vs : loc) (others : list loc) : M unit :=
  match others with
  | [] => ret tt
  | vs :: others' =>
      (if bool_decide (vs ≠ base_vs) then merge_from base_vs vs else ret tt);;
      merge_others base_vs others'
  end.

Definition merge_vector_stores (vector_stores : list loc) : M loc :=
  match vector_stores with
  | [] => raise (HTTPException 400 (py "No vector stores to merge"))
  | base_vs :: others => merge_others base_vs others;; ret base_vs
  end.

(** *** Loading, lines 151-168 *)

(** [FAISS.load_local(f"embeddings/{doc_id}", ...)]: a new object with the
    persisted content; faiss raises when there is no index to read. *)
Definition load_local (doc_id : str) : M loc :=
  e ← get embeddings;
  match e !! doc_id with
  | Some vs => alloc vs
  | None => raise RuntimeError
  end.

(** [os.path.exists(f"embeddings/{document_id}")] is the lookup of the id
    among the embeddings directories: what it is for an id that is a
    [plain_name]. *)
Definition load_vector_store (document_id : str) : M loc :=
  docs ← get documents;
  match docs !! document_id with
  | Some entry => ret (vector_store entry)
  | None =>
      e ← get embeddings;
      if bool_decide (is_Some (e !! document_id)) then
        vs ← load_local document_id;
        modify (set_documents
                  <[document_id := {| vector_store := vs; chat_history := [] |}]>);;
        ret vs
      else raise (HTTPException 404 (py "Document not found"))
  end.

(** *** Upload, lines 170-202 *)

Definition fresh_uuid : M str :=
  λ s, (Ok (uuid4 (uuid_count s)), set_uuid_count S s).

Definition now_isoformat : M str :=
  λ s, (Ok (utcnow (clock_count s)), set_clock_count S s).

(** [os.makedirs(dir, exist_ok=True)] *)
Definition makedirs (dir : str) : M unit :=
  modify (set_uploads (λ u, <[dir := default ∅ (u !! dir)]> u)).

(** [os.makedirs(dir, exist_ok=True)] then [open(path, "wb")] and copy.
    A name that cannot be made a path is refused before the file system is
    asked.  A plain name is created or overwritten in the directory.  A
    nested name needs a sub-directory, and an upload directory holds files
    only: [open] raises FileNotFoundError (NotADirectoryError when the
    first part names a file), both [OSError].  What happens for any other
    name ([./x.pdf], [../x.pdf], a name of more than 255 bytes) is the file
    system's business. *)
Definition write_upload (p : upload_path) (content : list N) : M unit :=
  makedirs (path_dir p);;
  if existsb unencodable (path_name p) then raise ValueError
  else if plain_name (path_name p) then
    modify (set_uploads (λ u,
      <[path_dir p := <[path_name p := content]> (default ∅ (u !! path_dir p))]> u))
  else if nested_name (path_name p) then raise OSError
  else
    u ← get uploads;
    match open_elsewhere u (path_dir p) (path_name p) content with
    | Some u' => modify (set_uploads (λ _, u'))
    | None => raise OSError
    end.

(** [INSERT INTO pdf_metadata ...]; [document_id] is the primary key. *)
Definition insert_metadata (r : metadata_row) : M unit :=
  rows ← get pdf_metadata;
  if bool_decide (row_document_id r ∈ row_document_id <$> rows)
  then raise IntegrityError
  else modify (set_pdf_metadata (λ rows, rows ++ [r])).

Definition add_task (t : task) : M unit :=
  modify (set_background_tasks (λ q, q ++ [t])).

Definition is_pdf (f : UploadFile) : bool :=
  endswith (lower (filename f)) (py ".pdf").

Definition upload_one (f : UploadFile) : M PdfUploadResponse :=
  if negb (is_pdf f) then
    raise (HTTPException 400 (py "Only PDF files are allowed: " ++ filename f))
  else
    document_id ← fresh_uuid;
    let file_path := {| path_dir := document_id; path_name := filename f |} in
    write_upload file_path (file f);;
    let file_size := Z.of_nat (length (file f)) in
    upload_date ← now_isoformat;
    insert_metadata {| row_document_id := document_id; row_filename := filename f;
                       row_upload_date := upload_date; row_size := file_size |};;
    add_task {| task_file_path := file_path; task_document_id := document_id |};;
    ret {| document_id := document_id;
           message := py "PDF '" ++ filename f ++ py "' uploaded and processing started" |}.

(** The [for file in files] loop with its accumulator [results]. *)
Fixpoint upload_loop (files : list UploadFile) (results : list PdfUploadResponse)
  : M (list PdfUploadResponse) :=
  match files with
  | [] => ret results
  | f :: files' =>
      r ← upload_one f;
      upload_loop files' (results ++ [r])
  end.

Definition upload_pdf (files : list UploadFile) : M (list PdfUploadResponse) :=
  upload_loop files [].

(** *** Listing, lines 204-221 *)

Definition list_documents : M (list metadata_row) := get pdf_metadata.

(** *** Query, lines 223-297 *)

(** The list comprehension of lines 244-247. *)
Fixpoint load_all (ids : list str) : M (list loc) :=
  match ids with
  | [] => ret []
  | doc_id :: ids' =>
      vs ← load_local doc_id;
      vss ← load_all ids';
      ret (vs :: vss)
  end.

(** [for other_vs in vector_stores[1:]: base_vs.merge_from(other_vs)] *)
Fixpoint merge_all (base_vs : loc) (others : list loc) : M unit :=
  match others with
  | [] => ret tt
  | other_vs :: others' => merge_from base_vs other_vs;; merge_all base_vs others'
  end.

(** Lines 234-252: the index a canonical key stands for. *)
Definition resolve (ids : list str) : M loc :=
  match ids with
  | [d] => load_vector_store d
  | _ =>
      cache ← get merged_vector_stores;
      match cache !! ids with
      | Some vs => ret vs
      | None =>
          vector_stores ← load_all ids;
          match vector_stores with
          | [] => raise IndexError
          | base_vs :: others =>
              merge_all base_vs others;;
              modify (set_merged_vector_stores <[ids := base_vs]>);;
              ret base_vs
          end
      end
  end.

Definition system_prompt : str := py "
Answer the user question based on the following context.
 Return the output in **CommonMark** that is parsed using micromark
 that can be **cleanly rendered in a React Markdown compiler** on the front end. 
 answer should fit in a message box, make line breaks accordingly.
{context}
".

(** [create_retrieval_chain(retriever, document_chain).invoke(...)] with the
    retriever of line 258: the result's "context" is the list of retrieved
    documents, its "answer" the completion. *)
Definition qa_chain_invoke (vs : loc) (input : str) (chat_history : list turn)
  : M (str * context_value) :=
  index ← get (λ s, deref s vs);
  match similarity_search index input 4 with
  | None => raise UpstreamError
  | Some docs =>
      match completion system_prompt docs input chat_history with
      | None => raise UpstreamError
      | Some answer =>
          ret (answer, ContextList ((λ d, WithPageContent (page_content d)) <$> docs))
      end
  end.

(** [text[:100] + "..."] *)
Definition preview (text : str) : str := slice_to 100 text ++ py "...".

(** Lines 289-295. *)
Definition extract_sources (source_documents : context_value) : list str :=
  match source_documents with
  | HasGetContent content => [preview content]
  | ContextList docs =>
      (λ doc, match doc with
              | WithPageContent content => preview content
              | Opaque repr => preview repr
              end) <$> docs
  | ContextOther => []
  end.

Definition query_document (request : QueryRequest) : M QueryResponse :=
  let ids := canonical_key (document_ids request) in
  vs ← resolve ids;
  let chat_key := ids in
  chat_history ← get (λ s, default [] (multi_chat_histories s !! chat_key));
  result ← qa_chain_invoke vs (query request) chat_history;
  let answer := result.1 in
  let source_documents := result.2 in
  modify (set_multi_chat_histories
            <[chat_key := chat_history ++ [(query request, answer)]]>);;
  ret {| answer := answer; sources := extract_sources source_documents |}.

(** *** Delete, lines 299-320 *)

(** The row is deleted and committed first.  [os.path.exists] is again a
    lookup by id, and [shutil.rmtree] removes the directory found: what
    they do for an id that is a [plain_name]. *)
Definition delete_document (document_id : str) : M str :=
  modify (set_pdf_metadata (filter (λ r, row_document_id r ≠ document_id)));;
  u ← get uploads;
  (if bool_decide (is_Some (u !! document_id))
   then modify (set_uploads (delete document_id)) else ret tt);;
  e ← get embeddings;
  (if bool_decide (is_Some (e !! document_id))
   then modify (set_embeddings (delete document_id)) else ret tt);;
  ret (py "Document " ++ document_id ++ py " deleted successfully").

(** *** The server *)

(** One request handled, or one scheduled task run or dropped. *)
Inductive step : state → state → Prop :=
  | step_upload files r s s' :
      upload_pdf files s = (r, s') → step s s'
  | step_list r s s' :
      list_documents s = (r, s') → step s s'
  | step_query request r s s' :
      query_document request s = (r, s') → step s s'
  | step_delete document_id r s s' :
      delete_document document_id s = (r, s') → step s s'
  | step_task t q1 q2 r s s' :
      background_tasks s = q1 ++ t :: q2 →
      process_pdf (task_file_path t) (task_document_id t)
        (set_background_tasks (λ _, q1 ++ q2) s) = (r, s') →
      step s s'
  | step_drop t q1 q2 s :
      background_tasks s = q1 ++ t :: q2 →
      step s (set_background_tasks (λ _, q1 ++ q2) s).

Definition reachable (s : state) : Prop := rtc step init s.

End Backend.

(** ** Derived states and invariants *)

(** The vocabulary of the statements below: the states the handlers lead
    to, written out, and what holds of every state the server can be in. *)
Section Vocabulary.
Context `{Collaborators}.

(** The persisted content of the members of a key, in key order. *)
Definition persisted (s : state) (ids : list str) : list FAISS :=
  (λ d, default [] (embeddings s !! d)) <$> ids.

(** The state after a cache miss on a key whose members are all persisted:
    the working copies are appended to the heap, the first one holds the
    merged content, and the cache points to it. *)
Definition merged_state (ids : list str) (s : state) : state :=
  set_merged_vector_stores <[ids := length (heap s)]>
    (set_heap (λ h, h ++ concat (persisted s ids) :: replicate (length ids - 1) []) s).

(** Ids the generator has handed out so far. *)
Definition issued (s : state) (d : str) : Prop :=
  ∃ n, (n < uuid_count s)%nat ∧ d = uuid4 n.

(** Every id the process knows was issued by an upload, and only keys with
    at least two members enter the session cache. *)
Record wf (s : state) : Prop := {
  wf_metadata : ∀ r, r ∈ pdf_metadata s → issued s (row_document_id r);
  wf_documents : ∀ d, is_Some (documents s !! d) → issued s d;
  wf_embeddings : ∀ d, is_Some (embeddings s !! d) → issued s d;
  wf_tasks : ∀ t, t ∈ background_tasks s → issued s (task_document_id t);
  wf_merged : ∀ k, is_Some (merged_vector_stores s !! k) → (2 ≤ length k)%nat }.

(** [resolve] leaves the conversations, the persisted layout, the task
    queue and the generators alone. *)
Definition same_outside_indexes (s s' : state) : Prop :=
  multi_chat_histories s' = multi_chat_histories s ∧
  uploads s' = uploads s ∧ embeddings s' = embeddings s ∧
  pdf_metadata s' = pdf_metadata s ∧ background_tasks s' = background_tasks s ∧
  uuid_count s' = uuid_count s ∧ clock_count s' = clock_count s.

(** Whatever happens to one file, only the upload directory, the table,
    the task queue and the generators can change. *)
Definition same_indexes (s s' : state) : Prop :=
  documents s' = documents s ∧ merged_vector_stores s' = merged_vector_stores s ∧
  heap s' = heap s ∧ embeddings s' = embeddings s ∧
  multi_chat_histories s' = multi_chat_histories s.

Definition upload_id (s : state) : str := uuid4 (uuid_count s).

Definition upload_row (f : UploadFile) (s : state) : metadata_row :=
  {| row_document_id := upload_id s; row_filename := filename f;
     row_upload_date := utcnow (clock_count s);
     row_size := Z.of_nat (length (file f)) |}.

Definition upload_task (f : UploadFile) (s : state) : task :=
  {| task_file_path := {| path_dir := upload_id s; path_name := filename f |};
     task_document_id := upload_id s |}.

Definition upload_response (f : UploadFile) (s : state) : PdfUploadResponse :=
  {| document_id := upload_id s;
     message := py "PDF '" ++ filename f ++ py "' uploaded and processing started" |}.

(** The state once one file went through the loop body. *)
Definition uploaded (s : state) (f : UploadFile) : state :=
  set_background_tasks (λ q, q ++ [upload_task f s])
    (set_pdf_metadata (λ rows, rows ++ [upload_row f s])
       (set_clock_count S
          (set_uploads (λ u, <[upload_id s :=
                                 <[filename f := file f]> (default ∅ (u !! upload_id s))]> u)
             (set_uuid_count S s)))).

(** The responses of a run of accepted files, state threaded through. *)
Fixpoint upload_responses (s : state) (files : list UploadFile)
  : list PdfUploadResponse :=
  match files with
  | [] => []
  | f :: files' => upload_response f s :: upload_responses (uploaded s f) files'
  end.

(** The row, the task and the stored file of the [i]-th accepted file of a
    batch that starts in state [s]. *)
Definition batch_id (s : state) (i : nat) : str := uuid4 (uuid_count s + i).

Definition batch_row (s : state) (i : nat) (f : UploadFile) : metadata_row :=
  {| row_document_id := batch_id s i; row_filename := filename f;
     row_upload_date := utcnow (clock_count s + i);
     row_size := Z.of_nat (length (file f)) |}.

Definition batch_task (s : state) (i : nat) (f : UploadFile) : task :=
  {| task_file_path := {| path_dir := batch_id s i; path_name := filename f |};
     task_document_id := batch_id s i |}.

Definition batch_response (s : state) (i : nat) (f : UploadFile) : PdfUploadResponse :=
  {| document_id := batch_id s i;
     message := py "PDF '" ++ filename f ++ py "' uploaded and processing started" |}.

(** What [delete_document] leaves behind: the row, the upload directory and
    the embeddings directory are gone. *)
Definition deleted (document_id : str) (s : state) : state :=
  set_embeddings (delete document_id)
    (set_uploads (delete document_id)
       (set_pdf_metadata (filter (λ r, row_document_id r ≠ document_id)) s)).

(** What every state the server can be in satisfies, besides [wf]: the
    dictionaries point to existing objects, the per-document
    ["chat_history"] is empty, the table has one row per id, and a live
    index whose persisted copy exists has that copy's content. *)
Record sound (s : state) : Prop := {
  sound_documents : ∀ d entry, documents s !! d = Some entry →
    (vector_store entry < length (heap s))%nat ∧ chat_history entry = [];
  sound_merged : ∀ k vs, merged_vector_stores s !! k = Some vs →
    (vs < length (heap s))%nat;
  sound_metadata : NoDup (row_document_id <$> pdf_metadata s);
  sound_consistent : ∀ d entry c,
    documents s !! d = Some entry → embeddings s !! d = Some c →
    heap s !! vector_store entry = Some c }.

(** What a later state has kept of an earlier one: every object, every
    [documents] key, every cache entry, and every conversation as a
    prefix. *)
Record extends (s s' : state) : Prop := {
  extends_heap : heap s `prefix_of` heap s';
  extends_documents : ∀ d, is_Some (documents s !! d) → is_Some (documents s' !! d);
  extends_merged : merged_vector_stores s ⊆ merged_vector_stores s';
  extends_histories : ∀ k h, multi_chat_histories s !! k = Some h →
    ∃ h', multi_chat_histories s' !! k = Some (h ++ h') }.

(** The state once [process_pdf] went through for a document whose text
    split into [chunks]: a new object holds them, its content is persisted
    under the id, and the id is registered with that object. *)
Definition ingested (document_id : str) (chunks : list str) (s : state) : state :=
  set_documents
    <[document_id := {| vector_store := length (heap s); chat_history := [] |}]>
    (set_embeddings <[document_id := Build_Document <$> chunks]>
       (set_heap (λ h, h ++ [Build_Document <$> chunks]) s)).

(** A new process on the same disk: the module's top level runs again
    (lines 22-43 and 87-89), the dictionaries and their objects are gone,
    and so are the tasks that had not run. *)
Definition restart (s : state) : state :=
  set_background_tasks (λ _, [])
    (set_heap (λ _, [])
       (set_merged_vector_stores (λ _, ∅)
          (set_multi_chat_histories (λ _, ∅)
             (set_documents (λ _, ∅) s)))).

End Vocabulary.

(** ** Test doubles *)

(** Stand-ins for the collaborators, for running the handlers on concrete
    requests: ASCII lower-casing, ids [id-0], [id-1], ..., a constant clock,
    an extractor that reads the bytes as text, a splitter on [|], a search
    that returns the first [k] chunks, a completion that echoes the
    question, and a file system that refuses every name it is asked
    about. *)
Module Demo.

Definition ascii_lower (c : N) : N :=
  if ((65 <=? c) && (c <=? 90))%N then (c + 32)%N else c.

Fixpoint split_on (sep : N) (cur : list N) (text : list N) : list (list N) :=
  match text with
  | [] => [reverse cur]
  | c :: text' =>
      if (c =? sep)%N then reverse cur :: split_on sep [] text'
      else split_on sep (c :: cur) text'
  end.

Definition collaborators : Collaborators := {|
  lower := fmap ascii_lower;
  uuid4 n := py "id-" ++ [(48 + N.of_nat n)%N];
  utcnow _ := py "2024-01-01T00:00:00";
  to_markdown content :=
    match content with
    | Some bytes => inl bytes
    | None => inr (py "no such file")
    end;
  split_text _ _ text := split_on 124 [] text;
  embed_documents _ := true;
  similarity_search index _ k := Some (take k index);
  completion _ _ input _ := Some (py "re: " ++ input);
  open_elsewhere _ _ _ _ := None |}.

#[local] Existing Instance collaborators.

Definition pdf (name content : string) : UploadFile :=
  {| filename := py name; file := py content |}.

(** Run a handler for its state, and for its result. *)
Definition exec {A} (m : M A) (s : state) : state := (m s).2.
Definition eval {A} (m : M A) (s : state) : result A := (m s).1.

(** Run the oldest scheduled task. *)
Definition run_task (s : state) : state :=
  match background_tasks s with
  | [] => s
  | t :: q =>
      exec (process_pdf (task_file_path t) (task_document_id t))
        (set_background_tasks (λ _, q) s)
  end.

(** A session. *)

Definition id0 : str := py "id-0".
Definition id1 : str := py "id-1".

(** Two documents uploaded in one request ... *)
Definition s_uploaded : state :=
  exec (upload_pdf [pdf "a.PDF" "alpha|beta"; pdf "b.pdf" "gamma"]) init.

(** ... both processed ... *)
Definition s_ready : state := run_task (run_task s_uploaded).

Definition ask (ids : list str) : QueryRequest :=
  {| document_ids := ids; query := py "hi" |}.

(** ... queried together once ... *)
Definition s_cached : state := exec (query_document (ask [id1; id0; id1])) s_ready.

(** ... the second one deleted ... *)
Definition s_deleted : state := exec (delete_document id1) s_cached.

Definition response_hi : QueryResponse :=
  {| answer := py "re: hi";
     sources := [py "alpha..."; py "beta..."; py "gamma..."] |}.

(** ... and the pair queried again. *)
Definition s_asked_twice : state :=
  exec (query_document (ask [id0; id1])) s_cached.

(** The content of the first document's index. *)
Definition alpha_beta : FAISS :=
  [{| page_content := py "alpha" |}; {| page_content := py "beta" |}].

(** A state in which the next id to be drawn already has a row. *)
Definition s_collision : state :=
  set_pdf_metadata
    (λ _, [{| row_document_id := id0; row_filename := py "old.pdf";
              row_upload_date := py "2023-12-31T00:00:00"; row_size := 0 |}])
    init.

(** The first document alone, persisted by [create_vector_store]. *)
Definition s_created : state := exec (create_vector_store (py "alpha|beta") id0) init.

(** The first of the two uploaded documents processed. *)
Definition a_path : upload_path := {| path_dir := id0; path_name := py "a.PDF" |}.
Definition s_first_ready : state := exec (process_pdf a_path id0) s_uploaded.

End Demo.

(** * Properties *)

(** ** The order on session-key members *)

Lemma str_leb_refl a : str_leb a a = true.
Proof. induction a as [|x a IH]; simpl; [done|]. by rewrite N.ltb_irrefl. Qed.

Lemma str_leb_total a b : str_leb a b = true ∨ str_leb b a = true.
Proof.
  revert b. induction a as [|x a IH]; intros [|y b]; simpl; auto.
  destruct (N.ltb_spec x y), (N.ltb_spec y x); auto; lia.
Qed.

Lemma str_leb_antisym a b : str_leb a b = true → str_leb b a = true → a = b.
Proof.
  revert b. induction a as [|x a IH]; intros [|y b]; simpl; try done.
  destruct (N.ltb_spec x y), (N.ltb_spec y x); try done; try lia.
  intros. f_equal; [lia | auto].
Qed.

Lemma str_leb_trans a b c :
  str_leb a b = true → str_leb b c = true → str_leb a c = true.
Proof.
  revert b c. induction a as [|x a IH]; intros [|y b] [|z c]; simpl; try done.
  destruct (N.ltb_spec x y), (N.ltb_spec y x), (N.ltb_spec y z),
    (N.ltb_spec z y), (N.ltb_spec x z), (N.ltb_spec z x);
    try done; try lia; eauto.
Qed.

Global Instance str_le_total : Total str_le.
Proof. intros a b. apply str_leb_total. Qed.
Global Instance str_le_trans : Transitive str_le.
Proof. intros a b c. apply str_leb_trans. Qed.
Global Instance str_le_antisym : AntiSymm (=) str_le.
Proof. intros a b. apply str_leb_antisym. Qed.
Global Instance str_le_refl : Reflexive str_le.
Proof. intros a. apply str_leb_refl. Qed.

(** ** Canonical keys *)

Lemma elem_of_canonical_key ids d : d ∈ canonical_key ids ↔ d ∈ ids.
Proof.
  unfold canonical_key. rewrite merge_sort_Permutation, elem_of_elements.
  by rewrite elem_of_list_to_set.
Qed.

Lemma canonical_key_NoDup ids : NoDup (canonical_key ids).
Proof. unfold canonical_key. rewrite merge_sort_Permutation. apply NoDup_elements. Qed.

Lemma canonical_key_sorted ids : StronglySorted str_le (canonical_key ids).
Proof. apply StronglySorted_merge_sort; apply _. Qed.

Lemma canonical_key_ext ids1 ids2 :
  (∀ d, d ∈ ids1 ↔ d ∈ ids2) → canonical_key ids1 = canonical_key ids2.
Proof.
  intros Hext. unfold canonical_key.
  replace (list_to_set ids2 : gset str) with (list_to_set ids1 : gset str); [done|].
  apply set_eq. intros d. by rewrite !elem_of_list_to_set.
Qed.

Lemma canonical_key_nil ids : canonical_key ids = [] ↔ ids = [].
Proof.
  split; [|by intros ->].
  intros Hk. destruct ids as [|d ids]; [done|].
  assert (d ∈ canonical_key (d :: ids)) as Hd
    by (apply elem_of_canonical_key; left).
  rewrite Hk in Hd. by apply elem_of_nil in Hd.
Qed.

(** The key is determined by its members: any ascending duplicate-free
    listing of the requested ids is the key. *)
Lemma canonical_key_unique ids key :
  StronglySorted str_le key → NoDup key → (∀ d, d ∈ key ↔ d ∈ ids) →
  canonical_key ids = key.
Proof.
  intros Hs Hn Hm. apply (StronglySorted_unique str_le);
    [apply canonical_key_sorted | done |].
  apply NoDup_Permutation; [apply canonical_key_NoDup | done |].
  intros d. by rewrite elem_of_canonical_key, Hm.
Qed.

Ltac munfold :=
  unfold mbind, M_bind, mret, M_ret, bind, ret, raise, get, modify in *.

Section Properties.
Context `{Collaborators}.

(** ** Loading *)

Lemma load_local_Some d s c :
  embeddings s !! d = Some c →
  load_local d s = (Ok (length (heap s)), set_heap (λ h, h ++ [c]) s).
Proof. intros Hd. unfold load_local, alloc. munfold. by rewrite Hd. Qed.

Lemma load_local_None d s :
  embeddings s !! d = None → load_local d s = (Raise RuntimeError, s).
Proof. intros Hd. unfold load_local. munfold. by rewrite Hd. Qed.

Lemma load_vector_store_memory d s entry :
  documents s !! d = Some entry →
  load_vector_store d s = (Ok (vector_store entry), s).
Proof. intros Hd. unfold load_vector_store. munfold. by rewrite Hd. Qed.

Lemma load_vector_store_disk d s c :
  documents s !! d = None → embeddings s !! d = Some c →
  load_vector_store d s =
    (Ok (length (heap s)),
     set_documents <[d := {| vector_store := length (heap s); chat_history := [] |}]>
       (set_heap (λ h, h ++ [c]) s)).
Proof.
  intros Hm Hd. unfold load_vector_store. munfold. rewrite Hm.
  rewrite bool_decide_eq_true_2 by (by rewrite Hd).
  by rewrite (load_local_Some _ _ c).
Qed.

Lemma load_vector_store_missing d s :
  documents s !! d = None → embeddings s !! d = None →
  load_vector_store d s = (Raise (HTTPException 404 (py "Document not found")), s).
Proof.
  intros Hm Hd. unfold load_vector_store. munfold. rewrite Hm.
  rewrite bool_decide_eq_false_2; [done|]. rewrite Hd. by intros [? ?].
Qed.

Lemma length_persisted s ids : length (persisted s ids) = length ids.
Proof. unfold persisted. apply length_fmap. Qed.

Lemma load_all_ok ids s :
  (∀ d, d ∈ ids → is_Some (embeddings s !! d)) →
  load_all ids s =
    (Ok (seq (length (heap s)) (length ids)),
     set_heap (λ h, h ++ persisted s ids) s).
Proof.
  revert s. induction ids as [|d ids IH]; intros s Hall; cbn [load_all length seq].
  - unfold ret, set_heap. destruct s; simpl. by rewrite app_nil_r.
  - destruct (Hall d) as [c Hc]; [left|].
    munfold. rewrite (load_local_Some _ _ c Hc).
    rewrite IH.
    2:{ intros d' Hd'. apply Hall. by right. }
    unfold persisted. rewrite fmap_cons, Hc. unfold set_heap; cbn [heap embeddings default].
    by rewrite length_app, Nat.add_1_r, <- app_assoc.
Qed.

Lemma load_all_missing ids s d :
  d ∈ ids → embeddings s !! d = None →
  ∃ loaded, load_all ids s = (Raise RuntimeError, set_heap (λ h, h ++ loaded) s).
Proof.
  revert s. induction ids as [|d' ids IH]; intros s Hin Hd.
  { by apply elem_of_nil in Hin. }
  simpl. munfold. destruct (embeddings s !! d') as [c|] eqn:Hc.
  - rewrite (load_local_Some _ _ c Hc).
    apply elem_of_cons in Hin as [->|Hin]; [congruence|].
    destruct (IH (set_heap (λ h, h ++ [c]) s) Hin Hd) as [loaded ->].
    exists (c :: loaded). unfold set_heap; simpl. by rewrite <- app_assoc.
  - rewrite load_local_None by done. exists []. unfold set_heap.
    destruct s; simpl. by rewrite app_nil_r.
Qed.

(** ** Merging *)

(** One [merge_from] on a heap whose tail holds the working copies: the
    base grows by the target's content and the target is emptied. *)
Lemma merge_step_heap (h0 : list (list Document)) acc k c cs :
  let h := h0 ++ acc :: replicate k [] ++ c :: cs in
  let base := length h0 in
  let target := (length h0 + 1 + k)%nat in
  <[target := []]> (<[base := default [] (h !! base) ++ default [] (h !! target)]> h)
  = h0 ++ (acc ++ c) :: replicate (S k) [] ++ cs.
Proof.
  intros h base target. subst h base target.
  rewrite (list_lookup_middle h0 _ acc (length h0)) by done.
  rewrite insert_app_r_alt, Nat.sub_diag by lia.
  rewrite !lookup_app_r by lia.
  replace (length h0 + 1 + k - length h0)%nat with (S k) by lia.
  rewrite insert_app_r_alt by lia.
  replace (length h0 + 1 + k - length h0)%nat with (S k) by lia.
  rewrite lookup_cons_ne_0, Nat.pred_succ by lia.
  rewrite list_lookup_middle by (by rewrite length_replicate).
  change (<[0%nat := ?x]> (acc :: ?l)) with (x :: l).
  change (<[S k := ?x]> (?y :: ?l)) with (y :: <[k := x]> l).
  rewrite insert_app_r_alt by (rewrite length_replicate; lia).
  rewrite length_replicate, Nat.sub_diag. simpl.
  do 2 f_equal. change ([] :: replicate k [] ++ cs)
    with (replicate (S k) ([] : list Document) ++ cs).
  by rewrite replicate_S_end, <- app_assoc.
Qed.

Lemma merge_all_spec h0 acc k cs s :
  heap s = h0 ++ acc :: replicate k [] ++ cs →
  merge_all (length h0) (seq (length h0 + 1 + k) (length cs)) s =
    (Ok tt, set_heap (λ _, h0 ++ (acc ++ concat cs) :: replicate (k + length cs) []) s).
Proof.
  revert acc k s. induction cs as [|c cs IH]; intros acc k s Hh;
    cbn [merge_all length seq concat].
  - unfold ret, set_heap. destruct s; simpl in *. subst.
    by rewrite !app_nil_r, Nat.add_0_r.
  - munfold. unfold merge_from, modify.
    replace (S (length h0 + 1 + k)) with (length h0 + 1 + S k)%nat by lia.
    rewrite (IH (acc ++ c) (S k)).
    + unfold set_heap; cbn. rewrite <- app_assoc.
      by replace (k + S (length cs))%nat with (S k + length cs)%nat by lia.
    + unfold set_heap; cbn [heap]. rewrite Hh. apply merge_step_heap.
Qed.

(** ** Resolving a key *)

Lemma resolve_single d s : resolve [d] s = load_vector_store d s.
Proof. done. Qed.

Lemma resolve_cached ids s vs :
  length ids ≠ 1%nat → merged_vector_stores s !! ids = Some vs →
  resolve ids s = (Ok vs, s).
Proof.
  intros Hlen Hc. unfold resolve. munfold.
  destruct ids as [|d [|d' ids]]; try done; by rewrite Hc.
Qed.

Lemma resolve_empty s :
  merged_vector_stores s !! [] = None → resolve [] s = (Raise IndexError, s).
Proof. intros Hc. unfold resolve. munfold. by rewrite Hc. Qed.

Lemma resolve_merge ids s :
  (2 ≤ length ids)%nat → merged_vector_stores s !! ids = None →
  (∀ d, d ∈ ids → is_Some (embeddings s !! d)) →
  resolve ids s = (Ok (length (heap s)), merged_state ids s).
Proof.
  intros Hlen Hc Hall.
  destruct ids as [|d0 [|d1 ids]]; [simpl in Hlen; lia| simpl in Hlen; lia |].
  unfold resolve. munfold. rewrite Hc, load_all_ok by done.
  pose proof (merge_all_spec (heap s) (default [] (embeddings s !! d0)) 0
                (persisted s (d1 :: ids))
                (set_heap (λ h, h ++ persisted s (d0 :: d1 :: ids)) s)) as Hm.
  rewrite length_persisted in Hm. cbn [length] in Hm.
  replace (length (heap s) + 1 + 0)%nat with (S (length (heap s))) in Hm by lia.
  change (seq (length (heap s)) (length (d0 :: d1 :: ids)))
    with (length (heap s) :: seq (S (length (heap s))) (S (length ids))).
  cbv iota beta. rewrite Hm by done.
  unfold merged_state, set_merged_vector_stores, set_heap.
  cbn. done.
Qed.

Lemma resolve_merge_missing ids s d :
  length ids ≠ 1%nat → merged_vector_stores s !! ids = None →
  d ∈ ids → embeddings s !! d = None →
  ∃ loaded, resolve ids s = (Raise RuntimeError, set_heap (λ h, h ++ loaded) s).
Proof.
  intros Hlen Hc Hin Hd.
  destruct (load_all_missing ids s d Hin Hd) as [loaded Hl].
  exists loaded. unfold resolve. munfold.
  destruct ids as [|d0 [|d1 ids]]; try done; by rewrite Hc, Hl.
Qed.

(** ** What a step can change *)

Lemma wf_init : wf init.
Proof.
  split; simpl; intros ? Hx;
    try (by apply elem_of_nil in Hx); rewrite lookup_empty in Hx; by destruct Hx.
Qed.

Lemma wf_set_heap f s : wf s → wf (set_heap f s).
Proof. intros [? ? ? ? ?]. by split. Qed.

Lemma load_all_frame ids s r s' :
  load_all ids s = (r, s') →
  (∃ loaded, s' = set_heap (λ h, h ++ loaded) s) ∧
  match r with
  | Ok vss => length vss = length ids
  | Raise e => e = RuntimeError
  end.
Proof.
  revert s r s'. induction ids as [|d ids IH]; intros s r s'; cbn [load_all].
  - munfold. intros [= <- <-]. split; [|done].
    exists []. destruct s; unfold set_heap; simpl. by rewrite app_nil_r.
  - munfold. destruct (embeddings s !! d) as [c|] eqn:Hc.
    + rewrite (load_local_Some _ _ c Hc).
      destruct (load_all ids _) as [[vss|e] s1] eqn:Hl;
        apply IH in Hl as [[loaded ->] Hlen]; intros [= <- <-].
      * split; [|simpl; by f_equal].
        exists (c :: loaded). unfold set_heap; simpl. by rewrite <- app_assoc.
      * split; [|done].
        exists (c :: loaded). unfold set_heap; simpl. by rewrite <- app_assoc.
    + rewrite load_local_None by done. intros [= <- <-]. split; [|done].
      exists []. destruct s; unfold set_heap; simpl. by rewrite app_nil_r.
Qed.

Lemma merge_all_frame base others s :
  ∃ f, merge_all base others s = (Ok tt, set_heap f s).
Proof.
  revert s. induction others as [|o others IH]; intros s; cbn [merge_all].
  - exists id. by destruct s.
  - munfold. unfold merge_from, modify.
    edestruct IH as [f ->]. eexists (λ h, f _). reflexivity.
Qed.

Lemma load_vector_store_wf d s r s' :
  load_vector_store d s = (r, s') → wf s → wf s'.
Proof.
  intros Hl Hwf.
  destruct (documents s !! d) as [entry|] eqn:Hm.
  { rewrite (load_vector_store_memory _ _ entry Hm) in Hl. by simplify_eq. }
  destruct (embeddings s !! d) as [c|] eqn:Hd.
  - rewrite (load_vector_store_disk _ _ c Hm Hd) in Hl. simplify_eq.
    destruct Hwf as [? Hdocs Hemb ? ?]. split; simpl; try done.
    intros d' Hd'. destruct (decide (d = d')) as [<-|Hne].
    + apply Hemb. by rewrite Hd.
    + rewrite lookup_insert_ne in Hd' by done. by apply Hdocs.
  - rewrite (load_vector_store_missing _ _ Hm Hd) in Hl. by simplify_eq.
Qed.

(** The four ways [resolve] can go. *)
Lemma resolve_cases ids s r s' :
  resolve ids s = (r, s') →
  (∃ d, ids = [d] ∧ load_vector_store d s = (r, s')) ∨
  (length ids ≠ 1%nat ∧ ∃ vs,
     merged_vector_stores s !! ids = Some vs ∧ r = Ok vs ∧ s' = s) ∨
  (length ids ≠ 1%nat ∧ merged_vector_stores s !! ids = None ∧
     ∃ e loaded, r = Raise e ∧ in_taxonomy e = false ∧
                 s' = set_heap (λ h, h ++ loaded) s) ∨
  ((2 ≤ length ids)%nat ∧ merged_vector_stores s !! ids = None ∧
     ∃ f base, r = Ok base ∧
               s' = set_merged_vector_stores <[ids := base]> (set_heap f s)).
Proof.
  intros Hr.
  destruct (decide (length ids = 1%nat)) as [Hone|Hmany].
  { left. destruct ids as [|d [|? ?]]; try done. by exists d. }
  right.
  assert (resolve ids s =
    (cache ← get merged_vector_stores;
     match cache !! ids with
     | Some vs => ret vs
     | None =>
         vector_stores ← load_all ids;
         match vector_stores with
         | [] => raise IndexError
         | base_vs :: others =>
             merge_all base_vs others;;
             modify (set_merged_vector_stores <[ids := base_vs]>);;
             ret base_vs
         end
     end) s) as Heq by (by destruct ids as [|d [|? ?]]).
  rewrite Heq in Hr. clear Heq. munfold.
  destruct (merged_vector_stores s !! ids) as [vs|] eqn:Hc.
  { left. simplify_eq. eauto. }
  right.
  destruct (load_all ids s) as [[vss|e] s1] eqn:Hl;
    apply load_all_frame in Hl as [[loaded ->] Hlen].
  2:{ left. simplify_eq. repeat split; try done. by exists RuntimeError, loaded. }
  destruct vss as [|base others].
  { left. simplify_eq. repeat split; try done. by exists IndexError, loaded. }
  right.
  destruct (merge_all_frame base others (set_heap (λ h, h ++ loaded) s)) as [f Hf].
  rewrite Hf in Hr. simplify_eq. split; [|split; [done|]].
  - simpl in Hlen. destruct ids as [|? [|? ?]]; simpl in *; try done; lia.
  - eexists (λ h, f (h ++ loaded)), base. done.
Qed.

Lemma resolve_wf ids s r s' : resolve ids s = (r, s') → wf s → wf s'.
Proof.
  intros Hr Hwf.
  apply resolve_cases in Hr
    as [(d & -> & Hl)|[(_ & vs & _ & -> & ->)|[(_ & _ & e & l & -> & _ & ->)
        |(Hlen & _ & f & base & -> & ->)]]].
  - eapply load_vector_store_wf; eauto.
  - done.
  - by apply wf_set_heap.
  - destruct Hwf as [? ? ? ? Hk]. split; simpl; try done.
    intros k Hin. destruct (decide (ids = k)) as [<-|Hne]; [done|].
    rewrite lookup_insert_ne in Hin by done. by apply Hk.
Qed.

Lemma load_vector_store_frame d s r s' :
  load_vector_store d s = (r, s') →
  same_outside_indexes s s' ∧ merged_vector_stores s' = merged_vector_stores s.
Proof.
  intros Hl.
  destruct (documents s !! d) as [entry|] eqn:Hm.
  { rewrite (load_vector_store_memory _ _ entry Hm) in Hl. by simplify_eq. }
  destruct (embeddings s !! d) as [c|] eqn:Hd.
  - rewrite (load_vector_store_disk _ _ c Hm Hd) in Hl. by simplify_eq.
  - rewrite (load_vector_store_missing _ _ Hm Hd) in Hl. by simplify_eq.
Qed.

Lemma resolve_frame ids s r s' :
  resolve ids s = (r, s') → same_outside_indexes s s'.
Proof.
  intros Hr.
  apply resolve_cases in Hr
    as [(d & -> & Hl)|[(_ & vs & _ & -> & ->)|[(_ & _ & e & l & -> & _ & ->)
        |(Hlen & _ & f & base & -> & ->)]]]; try done.
  by apply load_vector_store_frame in Hl as [? _].
Qed.

(** ** Queries *)

Lemma query_document_Ok request s response s' :
  query_document request s = (Ok response, s') →
  let key := canonical_key (document_ids request) in
  ∃ vs s1 docs,
    resolve key s = (Ok vs, s1) ∧
    similarity_search (deref s1 vs) (query request) 4 = Some docs ∧
    completion system_prompt docs (query request)
      (default [] (multi_chat_histories s !! key)) = Some (answer response) ∧
    sources response = (λ d, preview (page_content d)) <$> docs ∧
    s' = set_multi_chat_histories
           <[key := default [] (multi_chat_histories s !! key)
                    ++ [(query request, answer response)]]> s1.
Proof.
  intros Hq key. unfold query_document in Hq. fold key in Hq. munfold.
  destruct (resolve key s) as [[vs|e] s1] eqn:Hr; [|done].
  pose proof (resolve_frame _ _ _ _ Hr) as (Hh & _).
  unfold qa_chain_invoke in Hq. munfold.
  destruct (similarity_search _ _ _) as [docs|] eqn:Hs; [|done].
  destruct (completion _ _ _ _) as [a|] eqn:Ha; [|done].
  simpl in Hq. simplify_eq. exists vs, s1, docs.
  rewrite <- Hh. repeat split; try done.
  simpl. by rewrite <- list_fmap_compose.
Qed.

Lemma query_document_wf request s r s' :
  query_document request s = (r, s') → wf s → wf s'.
Proof.
  intros Hq Hwf. unfold query_document in Hq. munfold.
  destruct (resolve _ s) as [[vs|e] s1] eqn:Hr;
    apply resolve_wf in Hr; try done; [|by simplify_eq].
  unfold qa_chain_invoke in Hq. munfold.
  destruct (similarity_search _ _ _) as [docs|]; [|by simplify_eq].
  destruct (completion _ _ _ _) as [a|]; [|by simplify_eq].
  simpl in Hq. simplify_eq. destruct Hr. by split.
Qed.

(** ** Uploads *)

Lemma upload_one_reject f s :
  is_pdf f = false →
  upload_one f s =
    (Raise (HTTPException 400 (py "Only PDF files are allowed: " ++ filename f)), s).
Proof. intros Hf. unfold upload_one. by rewrite Hf. Qed.

Lemma plain_name_encodable name :
  plain_name name = true → existsb unencodable name = false.
Proof.
  unfold plain_name. intros Hp. repeat (apply andb_true_iff in Hp as [Hp ?]).
  match goal with H : forallb _ _ = true |- _ => rename H into Hc end.
  apply not_true_is_false. intros (c & Hin & Hu)%existsb_exists.
  rewrite forallb_forall in Hc. apply Hc in Hin.
  unfold name_char in Hin. unfold unencodable in Hu.
  destruct (N.eqb_spec c 0), (N.ltb_spec c 55296), (N.ltb_spec 57343 c),
    (N.leb_spec 55296 c), (N.ltb_spec c 56448), (N.ltb_spec 56575 c),
    (N.leb_spec c 57343); simpl in *; try done; lia.
Qed.

Lemma write_upload_plain p content s :
  plain_name (path_name p) = true →
  write_upload p content s =
    (Ok tt,
     set_uploads (λ u,
       <[path_dir p := <[path_name p := content]> (default ∅ (u !! path_dir p))]> u) s).
Proof.
  intros Hp. unfold write_upload, makedirs.
  rewrite (plain_name_encodable _ Hp), Hp. munfold.
  unfold set_uploads. cbn.
  by rewrite lookup_insert_eq, insert_insert_eq.
Qed.

Lemma write_upload_nested p content s :
  nested_name (path_name p) = true →
  write_upload p content s =
    (Raise OSError,
     set_uploads (λ u, <[path_dir p := default ∅ (u !! path_dir p)]> u) s).
Proof.
  intros Hn. unfold write_upload, makedirs. munfold.
  assert (existsb unencodable (path_name p) = false) as ->.
  { unfold nested_name in Hn. apply andb_true_iff in Hn as [_ Hn].
    by apply negb_true_iff in Hn. }
  assert (plain_name (path_name p) = false) as ->.
  { apply not_true_is_false. intros Hp.
    unfold nested_name in Hn. apply andb_true_iff in Hn as [Hn _].
    apply andb_true_iff in Hn as [Hs _].
    apply bool_decide_eq_true in Hs.
    unfold plain_name in Hp. repeat (apply andb_true_iff in Hp as [Hp ?]).
    match goal with H : forallb _ _ = true |- _ => rename H into Hc end.
    rewrite forallb_forall in Hc. apply list_elem_of_In, Hc in Hs.
    by vm_compute in Hs. }
  by rewrite Hn.
Qed.

(** Whatever the name, writing an upload touches the upload directories
    only. *)
Lemma write_upload_frame p content s r s' :
  write_upload p content s = (r, s') → ∃ f, s' = set_uploads f s.
Proof.
  unfold write_upload, makedirs. munfold. intros Hw.
  destruct (existsb _ _); [simplify_eq; by eexists (λ u, _)|].
  destruct (plain_name _); [simplify_eq; by eexists (λ u, _)|].
  destruct (nested_name _); [simplify_eq; by eexists (λ u, _)|].
  cbn in Hw. destruct (open_elsewhere _ _ _ _); simplify_eq; by eexists (λ u, _).
Qed.

Lemma upload_one_ok f s :
  is_pdf f = true → plain_name (filename f) = true →
  upload_id s ∉ row_document_id <$> pdf_metadata s →
  upload_one f s = (Ok (upload_response f s), uploaded s f).
Proof.
  intros Hf Hp Hfresh. unfold upload_one. rewrite Hf. cbn [negb].
  unfold fresh_uuid. munfold. rewrite write_upload_plain by done.
  unfold now_isoformat, insert_metadata, add_task.
  munfold. cbn. by rewrite bool_decide_eq_false_2.
Qed.

Lemma issued_mono s s' d :
  (uuid_count s ≤ uuid_count s')%nat → issued s d → issued s' d.
Proof. intros Hle (n & Hn & ->). exists n. split; [lia|done]. Qed.

(** The ways one file can go through the loop body: refused by its name,
    stopped at [open], stopped at the INSERT, or accepted. *)
Lemma upload_one_cases f s r s' :
  upload_one f s = (r, s') →
  (r = Raise (HTTPException 400 (py "Only PDF files are allowed: " ++ filename f))
   ∧ s' = s) ∨
  ∃ fu, let s1 := set_uploads fu (set_uuid_count S s) in
    ((r = Raise OSError ∨ r = Raise ValueError) ∧ s' = s1) ∨
    (r = Raise IntegrityError ∧ s' = set_clock_count S s1 ∧
     upload_id s ∈ row_document_id <$> pdf_metadata s) ∨
    (r = Ok (upload_response f s) ∧
     (upload_id s ∉ row_document_id <$> pdf_metadata s) ∧
     s' = set_background_tasks (λ q, q ++ [upload_task f s])
            (set_pdf_metadata (λ rows, rows ++ [upload_row f s])
               (set_clock_count S s1))).
Proof.
  unfold upload_one. destruct (is_pdf f); cbn [negb]; [|intros [= <- <-]; by left].
  unfold fresh_uuid. munfold. intros Hu. right.
  destruct (write_upload _ _ _) as [[[]|e] s1] eqn:Hw;
    pose proof (write_upload_frame _ _ _ _ _ Hw) as [fu ->].
  2:{ exists fu. left.
      unfold write_upload, makedirs in Hw. munfold.
      destruct (existsb _ _); [simplify_eq; split; [by right|done]|].
      destruct (plain_name _); [done|].
      destruct (nested_name _); [simplify_eq; split; [by left|done]|].
      cbn in Hw. destruct (open_elsewhere _ _ _ _); simplify_eq.
      split; [by left|done]. }
  exists fu. right.
  unfold now_isoformat, insert_metadata, add_task in Hu. munfold. cbn in Hu.
  case_bool_decide as Hin; simplify_eq; [left|right]; done.
Qed.

Lemma upload_one_frame f s r s' :
  upload_one f s = (r, s') → wf s → wf s' ∧ same_indexes s s'.
Proof.
  intros Hu Hwf.
  assert (∀ d, issued s d → issued (set_uuid_count S s) d) as Hmono
    by (intros d; apply issued_mono; simpl; lia).
  assert (issued (set_uuid_count S s) (upload_id s)) as Hnew
    by (exists (uuid_count s); simpl; split; [lia|done]).
  destruct Hwf as [Hmeta Hdocs Hemb Htasks Hk].
  apply upload_one_cases in Hu
    as [[-> ->]|(fu & [[_ ->]|[(-> & -> & _)|(-> & _ & ->)]])];
    (split; [|done]); split; simpl; try done;
    try (intros; by apply Hmono; eauto).
  - intros r [Hr| ->%list_elem_of_singleton]%elem_of_app; [|done].
    by apply Hmono, Hmeta.
  - intros t [Ht| ->%list_elem_of_singleton]%elem_of_app; [|done].
    by apply Hmono, Htasks.
Qed.

Lemma upload_loop_frame files results s r s' :
  upload_loop files results s = (r, s') → wf s → wf s' ∧ same_indexes s s'.
Proof.
  revert results s. induction files as [|f files IH]; intros results s;
    cbn [upload_loop]; munfold.
  { by intros [= <- <-]. }
  destruct (upload_one f s) as [[resp|e] s1] eqn:Hu; intros Hl Hwf;
    apply upload_one_frame in Hu as [Hwf1 Hsame]; try done; [|by simplify_eq].
  apply IH in Hl as [? Hsame']; [|done]. split; [done|].
  destruct Hsame as (? & ? & ? & ? & ?), Hsame' as (? & ? & ? & ? & ?).
  repeat split; congruence.
Qed.

Lemma upload_fresh s :
  Inj (=) (=) uuid4 → wf s → upload_id s ∉ row_document_id <$> pdf_metadata s.
Proof.
  intros Hinj Hwf (r & Hid & Hr)%list_elem_of_fmap.
  destruct (wf_metadata _ Hwf r Hr) as (n & Hn & Hrn).
  unfold upload_id in Hid. rewrite Hrn in Hid. apply Hinj in Hid. lia.
Qed.

Lemma uploaded_wf s f : wf s → wf (uploaded s f).
Proof.
  intros Hwf.
  assert (∀ d, issued s d → issued (uploaded s f) d) as Hmono
    by (intros d; apply issued_mono; simpl; lia).
  assert (issued (uploaded s f) (upload_id s)) as Hnew
    by (exists (uuid_count s); simpl; split; [lia|done]).
  destruct Hwf as [Hmeta Hdocs Hemb Htasks Hk].
  split; simpl; try done; try (intros; by apply Hmono; eauto).
  - intros r [Hr| ->%list_elem_of_singleton]%elem_of_app; [|done].
    by apply Hmono, Hmeta.
  - intros t [Ht| ->%list_elem_of_singleton]%elem_of_app; [|done].
    by apply Hmono, Htasks.
Qed.

Lemma upload_loop_ok files results s :
  Inj (=) (=) uuid4 → wf s → Forall (λ f, is_pdf f = true) files →
  Forall (λ f, is_pdf f = true → plain_name (filename f) = true) files →
  upload_loop files results s =
    (Ok (results ++ upload_responses s files), foldl uploaded s files).
Proof.
  intros Hinj. revert results s.
  induction files as [|f files IH]; intros results s Hwf Hall Hplain; cbn.
  { by rewrite app_nil_r. }
  apply Forall_cons in Hall as [Hf Hall].
  apply Forall_cons in Hplain as [Hp Hplain]. munfold.
  rewrite upload_one_ok by auto using upload_fresh.
  rewrite IH by auto using uploaded_wf. by rewrite <- app_assoc.
Qed.

Lemma upload_loop_reject pre bad post results s :
  Inj (=) (=) uuid4 → wf s → Forall (λ f, is_pdf f = true) pre →
  Forall (λ f, is_pdf f = true → plain_name (filename f) = true) pre →
  is_pdf bad = false →
  upload_loop (pre ++ bad :: post) results s =
    (Raise (HTTPException 400 (py "Only PDF files are allowed: " ++ filename bad)),
     foldl uploaded s pre).
Proof.
  intros Hinj. revert results s.
  induction pre as [|f pre IH]; intros results s Hwf Hall Hplain Hbad;
    cbn; munfold.
  { by rewrite upload_one_reject. }
  apply Forall_cons in Hall as [Hf Hall].
  apply Forall_cons in Hplain as [Hp Hplain].
  rewrite upload_one_ok by auto using upload_fresh.
  by rewrite IH by auto using uploaded_wf.
Qed.

(** ** Deletion *)

Lemma upload_one_nested f s :
  is_pdf f = true → nested_name (filename f) = true →
  upload_one f s =
    (Raise OSError,
     set_uploads (λ u, <[upload_id s := default ∅ (u !! upload_id s)]> u)
       (set_uuid_count S s)).
Proof.
  intros Hf Hn. unfold upload_one. rewrite Hf. cbn [negb].
  unfold fresh_uuid. munfold. by rewrite write_upload_nested.
Qed.

Lemma upload_loop_nested pre f post results s :
  Inj (=) (=) uuid4 → wf s → Forall (λ f, is_pdf f = true) pre →
  Forall (λ f, is_pdf f = true → plain_name (filename f) = true) pre →
  is_pdf f = true → nested_name (filename f) = true →
  upload_loop (pre ++ f :: post) results s =
    (Raise OSError,
     set_uploads (λ u, <[upload_id (foldl uploaded s pre) :=
                           default ∅ (u !! upload_id (foldl uploaded s pre))]> u)
       (set_uuid_count S (foldl uploaded s pre))).
Proof.
  intros Hinj. revert results s.
  induction pre as [|f0 pre IH]; intros results s Hwf Hall Hplain Hf Hn;
    cbn; munfold.
  { by rewrite upload_one_nested. }
  apply Forall_cons in Hall as [Hf0 Hall].
  apply Forall_cons in Hplain as [Hp Hplain].
  rewrite upload_one_ok by auto using upload_fresh.
  by rewrite IH by auto using uploaded_wf.
Qed.

Lemma delete_document_spec d s :
  delete_document d s =
    (Ok (py "Document " ++ d ++ py " deleted successfully"), deleted d s).
Proof.
  unfold delete_document, deleted. munfold. cbn.
  destruct (uploads s !! d) as [u|] eqn:Hu, (embeddings s !! d) as [e|] eqn:He.
  all: repeat (first [rewrite bool_decide_eq_true_2 by eauto
                     |rewrite bool_decide_eq_false_2 by (by intros [? ?])
                     |progress cbn |rewrite He]).
  all: unfold set_embeddings, set_uploads; cbn.
  all: by rewrite ?(delete_id _ _ Hu), ?(delete_id _ _ He).
Qed.

Lemma deleted_wf d s : wf s → wf (deleted d s).
Proof.
  intros [Hmeta Hdocs Hemb Htasks Hk]. split; simpl; try done.
  - intros r [_ Hr]%list_elem_of_filter. by apply Hmeta.
  - intros d' [c Hd']. apply lookup_delete_Some in Hd' as [_ Hd'].
    apply Hemb. by rewrite Hd'.
Qed.

(** ** Background processing *)

Lemma process_pdf_wf p d s r s' :
  process_pdf p d s = (r, s') → wf s → issued s d → wf s'.
Proof.
  unfold process_pdf, extract_text, create_vector_store, from_texts, save_local, alloc.
  munfold. intros Hp [Hmeta Hdocs Hemb Htasks Hk] Hd.
  destruct (to_markdown _) as [text|msg]; [|by simplify_eq].
  destruct (embed_documents _); [|by simplify_eq].
  cbn in Hp. simplify_eq. split; simpl; try done.
  - intros d' Hd'. destruct (decide (d = d')) as [<-|Hne]; [done|].
    rewrite lookup_insert_ne in Hd' by done. by apply Hdocs.
  - intros d' Hd'. destruct (decide (d = d')) as [<-|Hne]; [done|].
    rewrite lookup_insert_ne in Hd' by done. by apply Hemb.
Qed.

(** ** Reachable states *)

Lemma step_wf s s' : step s s' → wf s → wf s'.
Proof.
  intros Hstep Hwf. destruct Hstep as
    [files r s s' Hu|r s s' Hl|request r s s' Hq|d r s s' Hd
    |t q1 q2 r s s' Hq Hp|t q1 q2 s Hq].
  - by apply upload_loop_frame in Hu as [? _].
  - unfold list_documents, get in Hl. by simplify_eq.
  - eapply query_document_wf; eauto.
  - rewrite delete_document_spec in Hd. simplify_eq. by apply deleted_wf.
  - eapply process_pdf_wf; [done| |].
    + destruct Hwf as [? ? ? Htasks ?]. split; simpl; try done.
      intros t' Ht'. apply Htasks. rewrite Hq.
      apply elem_of_app in Ht' as [?|?]; set_solver.
    + destruct (wf_tasks _ Hwf t) as (n & Hn & Ht); [rewrite Hq; set_solver|].
      by exists n.
  - destruct Hwf as [? ? ? Htasks ?]. split; simpl; try done.
    intros t' Ht'. apply Htasks. rewrite Hq.
    apply elem_of_app in Ht' as [?|?]; set_solver.
Qed.

Lemma reachable_wf s : reachable s → wf s.
Proof.
  unfold reachable. intros Hr. apply (rtc_ind_r (R := step) (λ s, wf s) init); [|  |done].
  - apply wf_init.
  - eauto using step_wf.
Qed.

(** ** The session index cache *)

(** Once a key resolved, resolving it again gives the very same object
    and changes nothing. *)
Lemma resolve_stable ids s vs s1 :
  resolve ids s = (Ok vs, s1) → resolve ids s1 = (Ok vs, s1).
Proof.
  intros Hr. apply resolve_cases in Hr
    as [(d & -> & Hl)|[(Hlen & vs' & Hc & [= <-] & ->)|[(_ & _ & e & l & [=] & _)
        |(Hlen & _ & f & base & [= <-] & ->)]]].
  - rewrite resolve_single.
    destruct (documents s !! d) as [entry|] eqn:Hm.
    { rewrite (load_vector_store_memory _ _ entry Hm) in Hl. simplify_eq.
      by apply load_vector_store_memory. }
    destruct (embeddings s !! d) as [c|] eqn:Hd.
    + rewrite (load_vector_store_disk _ _ c Hm Hd) in Hl. simplify_eq.
      by rewrite (load_vector_store_memory _ _
           {| vector_store := length (heap s); chat_history := [] |})
        by apply lookup_insert_eq.
    + by rewrite (load_vector_store_missing _ _ Hm Hd) in Hl.
  - by apply resolve_cached.
  - apply resolve_cached; [lia|]. apply lookup_insert_eq.
Qed.

(** A key whose members are all persisted resolves. *)
Lemma resolve_ingested key s :
  key ≠ [] → (∀ d, d ∈ key → is_Some (embeddings s !! d)) →
  ∃ vs s1, resolve key s = (Ok vs, s1).
Proof.
  intros Hne Hall.
  destruct (decide (length key = 1%nat)) as [Hone|Hmany].
  - destruct key as [|d [|? ?]]; try done. rewrite resolve_single.
    destruct (documents s !! d) as [entry|] eqn:Hm.
    { rewrite (load_vector_store_memory _ _ entry Hm). eauto. }
    destruct (Hall d) as [c Hc]; [left|].
    rewrite (load_vector_store_disk _ _ c Hm Hc). eauto.
  - destruct (merged_vector_stores s !! key) as [vs|] eqn:Hc.
    { rewrite (resolve_cached _ _ vs) by done. eauto. }
    rewrite resolve_merge; eauto.
    destruct key as [|? [|? ?]]; simpl in *; try done; lia.
Qed.

(** C1. Session-key canonicalization: two non-empty lists of ingested
    document ids with the same members, in any order and with any
    repetitions, have the same canonical key, an ascending listing of the
    distinct ids; the key resolves, a request for either list in the same
    state resolves identically, and a later request for the other list gets
    the very same index object while the state, hence the object's
    queryable content, stays as it is. *)
Theorem session_key_canonicalization (ids1 ids2 : list str) (s : state) :
  ids1 ≠ [] →
  (∀ d, d ∈ ids1 ↔ d ∈ ids2) →
  (∀ d, d ∈ ids1 → is_Some (embeddings s !! d)) →
  canonical_key ids1 = canonical_key ids2 ∧
  StronglySorted str_le (canonical_key ids1) ∧
  NoDup (canonical_key ids1) ∧
  (∀ d, d ∈ canonical_key ids1 ↔ d ∈ ids1) ∧
  ∃ vs s1,
    resolve (canonical_key ids1) s = (Ok vs, s1) ∧
    resolve (canonical_key ids2) s = (Ok vs, s1) ∧
    resolve (canonical_key ids2) s1 = (Ok vs, s1) ∧
    deref (resolve (canonical_key ids2) s1).2 vs = deref s1 vs.
Proof.
  intros Hne Hsame Hing.
  pose proof (canonical_key_ext _ _ Hsame) as Hkey.
  split; [done|]. split; [apply canonical_key_sorted|].
  split; [apply canonical_key_NoDup|]. split; [apply elem_of_canonical_key|].
  destruct (resolve_ingested (canonical_key ids1) s) as (vs & s1 & Hr).
  - by rewrite canonical_key_nil.
  - intros d Hd. by apply Hing, elem_of_canonical_key.
  - exists vs, s1. rewrite <- Hkey.
    by rewrite (resolve_stable _ _ _ _ Hr).
Qed.

(** C2. Single-document bypass: when the canonical key has the single
    member [d], resolving is [load_vector_store d]: the index recorded for
    [d] in [documents] when there is one, otherwise a copy loaded from
    [d]'s persisted storage and recorded there.  No merge runs (no existing
    object changes), the session cache gets no entry, and the returned
    object is the live one, [documents[d]["vector_store"]]. *)
Theorem single_document_bypass (ids : list str) (d : str) (s : state) :
  canonical_key ids = [d] →
  resolve (canonical_key ids) s = load_vector_store d s ∧
  (∀ entry, documents s !! d = Some entry →
     resolve (canonical_key ids) s = (Ok (vector_store entry), s)) ∧
  (∀ c, documents s !! d = None → embeddings s !! d = Some c →
     ∃ s', resolve (canonical_key ids) s = (Ok (length (heap s)), s') ∧
           deref s' (length (heap s)) = c) ∧
  (∀ r s', resolve (canonical_key ids) s = (r, s') →
     merged_vector_stores s' = merged_vector_stores s ∧
     (∀ l, (l < length (heap s))%nat → heap s' !! l = heap s !! l) ∧
     (∀ vs, r = Ok vs → vector_store <$> documents s' !! d = Some vs)).
Proof.
  intros ->. rewrite resolve_single. split; [done|].
  split; [intros entry Hm; by apply load_vector_store_memory|].
  split.
  { intros c Hm Hd. rewrite (load_vector_store_disk _ _ c Hm Hd).
    eexists. split; [done|]. unfold deref. simpl.
    by rewrite list_lookup_middle. }
  intros r s' Hl.
  destruct (documents s !! d) as [entry|] eqn:Hm.
  { rewrite (load_vector_store_memory _ _ entry Hm) in Hl. simplify_eq.
    repeat split; try done. intros vs [= <-]. by rewrite Hm. }
  destruct (embeddings s !! d) as [c|] eqn:Hd.
  - rewrite (load_vector_store_disk _ _ c Hm Hd) in Hl. simplify_eq.
    repeat split; simpl.
    + intros l Hlt. by rewrite lookup_app_l.
    + intros vs [= <-]. by rewrite lookup_insert_eq.
  - rewrite (load_vector_store_missing _ _ Hm Hd) in Hl. by simplify_eq.
Qed.

(** Whatever a cache miss on a key with several members leads to, it
    only appends objects to the heap and, at most, adds the key to the
    cache. *)
Lemma resolve_miss_frame key s r s' :
  (2 ≤ length key)%nat → merged_vector_stores s !! key = None →
  resolve key s = (r, s') →
  documents s' = documents s ∧ embeddings s' = embeddings s ∧
  ∀ l, (l < length (heap s))%nat → heap s' !! l = heap s !! l.
Proof.
  intros Hlen Hc Hr.
  destruct (decide (Forall (λ d, is_Some (embeddings s !! d)) key)) as [Hall|Hnot].
  - rewrite Forall_forall in Hall.
    rewrite resolve_merge in Hr by done. simplify_eq.
    repeat split. intros l Hl. simpl. by rewrite lookup_app_l.
  - apply not_Forall_Exists in Hnot; [|apply _].
    apply Exists_exists in Hnot as (d & Hin & Hd). simpl in Hd.
    apply eq_None_not_Some in Hd.
    destruct (resolve_merge_missing key s d) as [loaded Hm]; try done; [lia|].
    rewrite Hm in Hr. simplify_eq.
    repeat split. intros l Hl. simpl. by rewrite lookup_app_l.
Qed.

(** C3. Merge frame: a session-cache miss for a key with at least two
    members, however it ends, leaves the [documents] map, the persisted
    indexes and every object that existed before, so every document's own
    index, untouched.  When the members are all persisted, [resolve]
    returns a new object whose content is the members' persisted contents
    concatenated in the key's ascending order, and records it under the
    key. *)
Theorem merge_frame (ids : list str) (s : state) :
  let key := canonical_key ids in
  (2 ≤ length key)%nat →
  merged_vector_stores s !! key = None →
  (∀ r s', resolve key s = (r, s') →
     documents s' = documents s ∧ embeddings s' = embeddings s ∧
     (∀ l, (l < length (heap s))%nat → heap s' !! l = heap s !! l) ∧
     (∀ d entry, documents s !! d = Some entry →
        (vector_store entry < length (heap s))%nat →
        documents s' !! d = Some entry ∧
        deref s' (vector_store entry) = deref s (vector_store entry))) ∧
  ((∀ d, d ∈ key → is_Some (embeddings s !! d)) →
     ∃ s', resolve key s = (Ok (length (heap s)), s') ∧
       deref s' (length (heap s)) = concat (persisted s key) ∧
       StronglySorted str_le key ∧
       merged_vector_stores s'
       = <[key := length (heap s)]> (merged_vector_stores s)).
Proof.
  intros key Hlen Hc. split.
  - intros r s' Hr.
    destruct (resolve_miss_frame key s r s' Hlen Hc Hr) as (Hd & He & Hh).
    repeat split; try done.
    + by rewrite Hd.
    + unfold deref. by rewrite Hh.
  - intros Hall. exists (merged_state key s).
    split; [by apply resolve_merge|]. repeat split.
    + unfold deref. simpl. by rewrite list_lookup_middle.
    + apply canonical_key_sorted.
Qed.


(** C6. Conversation history: a successful query appends exactly one turn,
    its own (question, answer), at the end of its session key's history and
    leaves every other key's history alone; so of two successful queries in
    a row against the same session, the second is answered from a history
    that is the first's history extended by the first's turn (exactly that
    one turn when the session was new), and afterwards the history holds
    both turns in arrival order. *)
Theorem conversation_history
    (request1 request2 : QueryRequest) (response1 response2 : QueryResponse)
    (s s1 s2 : state) :
  let key := canonical_key (document_ids request1) in
  let before := default [] (multi_chat_histories s !! key) in
  let turn1 := (query request1, answer response1) in
  let turn2 := (query request2, answer response2) in
  canonical_key (document_ids request2) = key →
  query_document request1 s = (Ok response1, s1) →
  query_document request2 s1 = (Ok response2, s2) →
  multi_chat_histories s1 = <[key := before ++ [turn1]]> (multi_chat_histories s) ∧
  (∃ docs, completion system_prompt docs (query request2) (before ++ [turn1])
           = Some (answer response2)) ∧
  (multi_chat_histories s !! key = None →
     ∃ docs, completion system_prompt docs (query request2) [turn1]
             = Some (answer response2)) ∧
  multi_chat_histories s2 !! key = Some (before ++ [turn1; turn2]) ∧
  (∀ k, k ≠ key → multi_chat_histories s2 !! k = multi_chat_histories s !! k).
Proof.
  intros key before turn1 turn2 Hkey Hq1 Hq2.
  apply query_document_Ok in Hq1 as (vs1 & t1 & docs1 & Hr1 & _ & _ & _ & ->).
  apply query_document_Ok in Hq2 as (vs2 & t2 & docs2 & Hr2 & _ & Hc2 & _ & ->).
  apply resolve_frame in Hr1 as (Hh1 & _). apply resolve_frame in Hr2 as (Hh2 & _).
  rewrite Hkey in *. fold key in Hc2 |- *. simpl in *.
  rewrite lookup_insert_eq in Hc2. simpl in Hc2.
  fold before turn1 in Hc2 |- *.
  split; [by rewrite Hh1|]. split; [by exists docs2|].
  split.
  { intros Hnew. exists docs2. subst before. by rewrite Hnew in Hc2. }
  rewrite Hh2. simpl. rewrite !lookup_insert_eq, Hh1. simpl.
  split; [by rewrite <- app_assoc|].
  intros k Hk. by rewrite !lookup_insert_ne.
Qed.

(** C7. Evidence list shape: a successful query runs the similarity search
    with k = 4 on the resolved index, and its [sources] list has, for each
    retrieved chunk and in retrieval order, the first 100 characters of the
    chunk's content followed by "...". *)
Theorem evidence_list_shape (request : QueryRequest) (response : QueryResponse)
    (s s' : state) :
  query_document request s = (Ok response, s') →
  ∃ vs s1 docs,
    resolve (canonical_key (document_ids request)) s = (Ok vs, s1) ∧
    similarity_search (deref s1 vs) (query request) 4 = Some docs ∧
    sources response = (λ d, take 100 (page_content d) ++ py "...") <$> docs ∧
    length (sources response) = length docs.
Proof.
  intros Hq.
  apply query_document_Ok in Hq as (vs & s1 & docs & Hr & Hs & _ & Hsrc & _).
  exists vs, s1, docs. repeat split; try done.
  by rewrite Hsrc, length_fmap.
Qed.

(** C9. Empty-set query is unhandled: for an empty [document_ids] list the
    canonical key is empty, and in every reachable state (the session cache
    never holds the empty key) the query fails with the [IndexError] of
    [vector_stores[0]], which is none of the handlers' own errors and
    reaches the client as a 500; the state is left as it was. *)
Theorem empty_query_unhandled (q : str) (s : state) :
  reachable s →
  canonical_key [] = [] ∧
  merged_vector_stores s !! [] = None ∧
  load_all [] s = (Ok [], s) ∧
  query_document {| document_ids := []; query := q |} s = (Raise IndexError, s) ∧
  in_taxonomy IndexError = false ∧
  http_status IndexError = 500.
Proof.
  intros Hs. apply reachable_wf in Hs.
  assert (merged_vector_stores s !! [] = None) as Hc.
  { destruct (merged_vector_stores s !! []) eqn:Hc; [|done].
    pose proof (wf_merged _ Hs [] (mk_is_Some _ _ Hc)) as Hlen. simpl in Hlen. lia. }
  assert (canonical_key [] = []) as Hk by (by apply canonical_key_nil).
  repeat split; try done.
  unfold query_document. cbn [document_ids]. rewrite Hk. munfold.
  by rewrite resolve_empty.
Qed.

(** ** Upload batches *)

Lemma batch_id_uploaded s f i : batch_id (uploaded s f) i = batch_id s (S i).
Proof. unfold batch_id. simpl. f_equal. lia. Qed.

Lemma upload_responses_batch s files :
  upload_responses s files = imap (batch_response s) files.
Proof.
  revert s. induction files as [|f files IH]; intros s; [done|].
  cbn [upload_responses imap]. rewrite IH. f_equal.
  - unfold upload_response, batch_response, upload_id, batch_id.
    by rewrite Nat.add_0_r.
  - apply imap_ext. intros i f' _. unfold batch_response.
    by rewrite batch_id_uploaded.
Qed.

Lemma uploaded_all_metadata s files :
  pdf_metadata (foldl uploaded s files) = pdf_metadata s ++ imap (batch_row s) files.
Proof.
  revert s. induction files as [|f files IH]; intros s; cbn [foldl imap].
  { by rewrite app_nil_r. }
  rewrite IH. simpl. rewrite <- app_assoc. f_equal. simpl. f_equal.
  - unfold upload_row, batch_row, upload_id, batch_id. by rewrite !Nat.add_0_r.
  - apply imap_ext. intros i f' _. unfold batch_row.
    rewrite batch_id_uploaded. simpl. do 2 f_equal. lia.
Qed.

Lemma uploaded_all_tasks s files :
  background_tasks (foldl uploaded s files)
  = background_tasks s ++ imap (batch_task s) files.
Proof.
  revert s. induction files as [|f files IH]; intros s; cbn [foldl imap].
  { by rewrite app_nil_r. }
  rewrite IH. simpl. rewrite <- app_assoc. f_equal. simpl. f_equal.
  - unfold upload_task, batch_task, upload_id, batch_id. by rewrite !Nat.add_0_r.
  - apply imap_ext. intros i f' _. unfold batch_task.
    by rewrite batch_id_uploaded.
Qed.

Lemma uploaded_all_other s files d :
  (∀ i, (i < length files)%nat → batch_id s i ≠ d) →
  uploads (foldl uploaded s files) !! d = uploads s !! d.
Proof.
  revert s. induction files as [|f files IH]; intros s Hd; cbn [foldl]; [done|].
  rewrite IH.
  - simpl. rewrite lookup_insert_ne; [done|].
    specialize (Hd 0%nat). unfold batch_id in Hd. rewrite Nat.add_0_r in Hd.
    apply Hd. simpl. lia.
  - intros i Hi. rewrite batch_id_uploaded. apply Hd. simpl. lia.
Qed.

Lemma uploaded_all_file s files i f :
  Inj (=) (=) uuid4 → files !! i = Some f →
  uploads (foldl uploaded s files) !! batch_id s i ≫= (λ dir, dir !! filename f)
  = Some (file f).
Proof.
  intros Hinj. revert s i.
  induction files as [|f0 files IH]; intros s i Hi; [done|].
  destruct i as [|i]; cbn [foldl].
  - simpl in Hi. simplify_eq. rewrite uploaded_all_other.
    + simpl. unfold batch_id, upload_id. rewrite Nat.add_0_r.
      rewrite lookup_insert_eq. simpl. by rewrite lookup_insert_eq.
    + intros j _. rewrite batch_id_uploaded. unfold batch_id.
      intros Heq%Hinj. lia.
  - rewrite <- (batch_id_uploaded s f0). by apply IH.
Qed.

Lemma not_issued_batch_id s i :
  Inj (=) (=) uuid4 → ¬ issued s (batch_id s i).
Proof. intros Hinj (n & Hn & Heq%Hinj). lia. Qed.

(** A batch with an offending file splits at the first one. *)
Lemma first_rejected files :
  (∃ f, f ∈ files ∧ is_pdf f = false) →
  ∃ pre bad post, files = pre ++ bad :: post ∧
                  Forall (λ f, is_pdf f = true) pre ∧ is_pdf bad = false.
Proof.
  induction files as [|f files IH]; intros (bad & Hin & Hbad).
  { by apply elem_of_nil in Hin. }
  destruct (is_pdf f) eqn:Hf.
  - apply elem_of_cons in Hin as [->|Hin]; [congruence|].
    destruct IH as (pre & bad' & post & -> & Hpre & Hbad'); [eauto|].
    exists (f :: pre), bad', post. repeat split; [|done]. by constructor.
  - by exists [], f, files.
Qed.

Lemma uploaded_all_recorded s files i f :
  files !! i = Some f →
  batch_row s i f ∈ pdf_metadata (foldl uploaded s files) ∧
  batch_task s i f ∈ background_tasks (foldl uploaded s files).
Proof.
  intros Hi. rewrite uploaded_all_metadata, uploaded_all_tasks.
  split; apply elem_of_app; right; apply list_elem_of_lookup; exists i;
    by rewrite list_lookup_imap, Hi.
Qed.

(** X30. Upload validation for plain file names: in a reachable state, with
    an id generator that never repeats, when every file whose lower-cased
    name ends with ".pdf" has a plain name (one directory entry: no [/], no
    NUL, at most 255 bytes), a request containing a file whose name does
    not end with ".pdf" fails with status 400; a request whose files all
    end with ".pdf" succeeds and answers, per file, a newly drawn id for
    which a metadata row and a processing task are recorded while the
    indexes are exactly as before: the document is pending, nothing has
    been processed yet. *)
Theorem upload_validation (files : list UploadFile) (s : state) :
  Inj (=) (=) uuid4 → reachable s →
  Forall (λ f, is_pdf f = true → plain_name (filename f) = true) files →
  ((∃ f, f ∈ files ∧ is_pdf f = false) →
     ∃ detail s',
       upload_pdf files s = (Raise (HTTPException 400 detail), s') ∧
       http_status (HTTPException 400 detail) = 400) ∧
  (Forall (λ f, is_pdf f = true) files →
     ∃ s',
       upload_pdf files s = (Ok (imap (batch_response s) files), s') ∧
       documents s' = documents s ∧ embeddings s' = embeddings s ∧
       heap s' = heap s ∧
       ∀ i f, files !! i = Some f →
         ¬ issued s (batch_id s i) ∧
         (batch_id s i ∉ row_document_id <$> pdf_metadata s) ∧
         documents s' !! batch_id s i = None ∧
         embeddings s' !! batch_id s i = None ∧
         batch_row s i f ∈ pdf_metadata s' ∧
         batch_task s i f ∈ background_tasks s').
Proof.
  intros Hinj Hs Hplain. apply reachable_wf in Hs. split.
  - intros (pre & bad & post & -> & Hpre & Hbad)%first_rejected.
    apply Forall_app in Hplain as [Hplain _].
    unfold upload_pdf. rewrite upload_loop_reject by done. by eexists _, _.
  - intros Hall. exists (foldl uploaded s files).
    pose proof (upload_loop_ok files [] s Hinj Hs Hall Hplain) as Hok.
    pose proof (upload_loop_frame _ _ _ _ _ Hok Hs) as [_ (Hd & _ & Hh & He & _)].
    unfold upload_pdf. rewrite Hok, upload_responses_batch.
    repeat split; try done.
    + by apply not_issued_batch_id.
    + intros (r & Hid & Hr)%list_elem_of_fmap.
      apply (not_issued_batch_id s i Hinj). rewrite Hid.
      by apply (wf_metadata _ Hs).
    + rewrite Hd. apply eq_None_not_Some. intros Hin.
      apply (not_issued_batch_id s i Hinj). by apply (wf_documents _ Hs).
    + rewrite He. apply eq_None_not_Some. intros Hin.
      apply (not_issued_batch_id s i Hinj). by apply (wf_embeddings _ Hs).
    + by apply uploaded_all_recorded.
    + by apply uploaded_all_recorded.
Qed.

(** X31. Upload batch non-atomicity for plain file names: when the first
    file without the ".pdf" extension comes after a run of accepted files
    with plain names, the request fails with 400 naming that file, in the
    very state a successful upload of the run alone would have left: each
    preceding file is stored in the upload directory, has its metadata row
    and its scheduled task; so with at least one preceding file the failed
    request has changed the state. *)
Theorem upload_batch_not_atomic
    (pre post : list UploadFile) (bad : UploadFile) (s : state) :
  Inj (=) (=) uuid4 → reachable s →
  Forall (λ f, is_pdf f = true) pre →
  Forall (λ f, plain_name (filename f) = true) pre → is_pdf bad = false →
  ∃ s',
    upload_pdf (pre ++ bad :: post) s =
      (Raise (HTTPException 400 (py "Only PDF files are allowed: " ++ filename bad)),
       s') ∧
    upload_pdf pre s = (Ok (imap (batch_response s) pre), s') ∧
    (∀ i f, pre !! i = Some f →
       uploads s' !! batch_id s i ≫= (λ dir, dir !! filename f) = Some (file f) ∧
       batch_row s i f ∈ pdf_metadata s' ∧
       batch_task s i f ∈ background_tasks s') ∧
    length (pdf_metadata s') = (length (pdf_metadata s) + length pre)%nat ∧
    (pre ≠ [] → s' ≠ s).
Proof.
  intros Hinj Hs Hpre Hplain Hbad. apply reachable_wf in Hs.
  assert (Forall (λ f, is_pdf f = true → plain_name (filename f) = true) pre)
    as Hplain' by (eapply Forall_impl; [exact Hplain|auto]).
  exists (foldl uploaded s pre). unfold upload_pdf.
  rewrite upload_loop_reject, upload_loop_ok, upload_responses_batch by done.
  assert (length (pdf_metadata (foldl uploaded s pre))
          = (length (pdf_metadata s) + length pre)%nat) as Hlen
    by (by rewrite uploaded_all_metadata, length_app, length_imap).
  repeat split; try done.
  - by apply uploaded_all_file.
  - by apply uploaded_all_recorded.
  - by apply uploaded_all_recorded.
  - intros Hne Heq. rewrite Heq in Hlen.
    destruct pre; [done|]. simpl in Hlen. lia.
Qed.

(** C8. An accepted name that cannot be stored: a file whose lower-cased
    name ends with ".pdf" and whose name asks for a sub-directory (a plain
    name, [/], anything; [sub/x.pdf]) passes the extension check and draws
    an id, and then [open] raises: the request fails with a 500 that is
    neither the handler's 400 nor an accepted upload.  No id is answered,
    no row and no task are recorded, the files after it are not looked at,
    and the directory made for the id stays behind with what it held. *)
Theorem upload_nested_name_raises
    (f : UploadFile) (rest : list UploadFile) (s : state) :
  is_pdf f = true → nested_name (filename f) = true →
  ∃ s', upload_pdf (f :: rest) s = (Raise OSError, s') ∧
        http_status OSError = 500 ∧ in_taxonomy OSError = false ∧
        uuid_count s' = S (uuid_count s) ∧
        uploads s' = <[upload_id s := default ∅ (uploads s !! upload_id s)]> (uploads s) ∧
        pdf_metadata s' = pdf_metadata s ∧
        background_tasks s' = background_tasks s.
Proof.
  intros Hf Hn. unfold upload_pdf. cbn [upload_loop]. munfold.
  rewrite upload_one_nested by done. by eexists.
Qed.

(** C10. A batch that stops before its offending file: when a file with a
    nested name ([sub/x.pdf]) comes after a run of accepted files with
    plain names, the request fails at that file with a 500, whatever
    follows it, a file without the ".pdf" extension included: that file is
    never reached and no 400 is answered.  The run before it is stored,
    recorded and scheduled; the nested file has neither row nor task, only
    the directory made for its id. *)
Theorem upload_batch_nested_name_raises
    (pre post : list UploadFile) (f : UploadFile) (s : state) :
  Inj (=) (=) uuid4 → reachable s →
  Forall (λ f, is_pdf f = true) pre →
  Forall (λ f, plain_name (filename f) = true) pre →
  is_pdf f = true → nested_name (filename f) = true →
  ∃ s', upload_pdf (pre ++ f :: post) s = (Raise OSError, s') ∧
        http_status OSError = 500 ∧
        pdf_metadata s' = pdf_metadata s ++ imap (batch_row s) pre ∧
        background_tasks s' = background_tasks s ++ imap (batch_task s) pre ∧
        (batch_id s (length pre) ∉ row_document_id <$> pdf_metadata s') ∧
        is_Some (uploads s' !! batch_id s (length pre)) ∧
        (∀ i f0, pre !! i = Some f0 →
           uploads s' !! batch_id s i ≫= (λ dir, dir !! filename f0)
           = Some (file f0)).
Proof.
  intros Hinj Hs Hpre Hplain Hf Hn. apply reachable_wf in Hs.
  assert (Forall (λ f, is_pdf f = true → plain_name (filename f) = true) pre)
    as Hplain' by (eapply Forall_impl; [exact Hplain|auto]).
  assert (upload_id (foldl uploaded s pre) = batch_id s (length pre)) as Hid.
  { clear. revert s. induction pre as [|f0 pre IH]; intros s; cbn [foldl length].
    - unfold batch_id, upload_id. by rewrite Nat.add_0_r.
    - rewrite IH. unfold batch_id. simpl. f_equal. lia. }
  eexists. unfold upload_pdf. rewrite upload_loop_nested by done.
  split; [done|]. split; [done|]. cbn [pdf_metadata background_tasks uploads
    set_uploads set_uuid_count].
  rewrite uploaded_all_metadata, uploaded_all_tasks, Hid.
  split; [done|]. split; [done|]. split; [|split].
  - rewrite fmap_app. intros [Hin|Hin]%elem_of_app.
    + apply list_elem_of_fmap in Hin as (r & Hr & Hin).
      apply (not_issued_batch_id s (length pre) Hinj). rewrite Hr.
      by apply (wf_metadata _ Hs).
    + rewrite fmap_imap in Hin. apply elem_of_lookup_imap in Hin
        as (i & f0 & Heq & Hi). simpl in Heq. unfold batch_id in Heq.
      apply Hinj in Heq. apply lookup_lt_Some in Hi. lia.
  - by rewrite lookup_insert_eq.
  - intros i f0 Hi. rewrite lookup_insert_ne.
    + by apply uploaded_all_file.
    + unfold batch_id. intros Heq%Hinj. apply lookup_lt_Some in Hi. lia.
Qed.

End Properties.

(** * The rest of the module *)

Section Lifecycle.
Context `{Collaborators}.

(** ** What later states keep *)

Lemma extends_refl s : extends s s.
Proof.
  split; try done. intros k h Hk. exists []. by rewrite app_nil_r.
Qed.

Lemma extends_trans s1 s2 s3 : extends s1 s2 → extends s2 s3 → extends s1 s3.
Proof.
  intros [Hh1 Hd1 Hm1 Hc1] [Hh2 Hd2 Hm2 Hc2]. split.
  - by etrans.
  - auto.
  - by etrans.
  - intros k h Hk. destruct (Hc1 k h Hk) as [h1 Hk1].
    destruct (Hc2 k _ Hk1) as [h2 Hk2]. exists (h1 ++ h2).
    by rewrite app_assoc.
Qed.

Lemma extends_heap_app s added : extends s (set_heap (λ h, h ++ added) s).
Proof.
  split; simpl; try done.
  - by apply prefix_app_r.
  - intros k h Hk. exists []. by rewrite app_nil_r.
Qed.

Lemma sound_heap_app s added : sound s → sound (set_heap (λ h, h ++ added) s).
Proof.
  intros [Hd Hm Hn Hc]. split; simpl; try done.
  - intros d entry Hin. destruct (Hd d entry Hin) as [Hlt ?].
    split; [|done]. rewrite length_app. lia.
  - intros k vs Hin. specialize (Hm k vs Hin). rewrite length_app. lia.
  - intros d entry c Hin He. rewrite lookup_app_l; [by eapply Hc|].
    by destruct (Hd d entry Hin).
Qed.

Lemma sound_init : sound init.
Proof. split; simpl; try done. constructor. Qed.

(** ** Loading and resolving *)

Lemma load_vector_store_effect d s r s' :
  load_vector_store d s = (r, s') → extends s s' ∧ (sound s → sound s').
Proof.
  intros Hl.
  destruct (documents s !! d) as [entry|] eqn:Hm.
  { rewrite (load_vector_store_memory _ _ entry Hm) in Hl. simplify_eq.
    split; [apply extends_refl|done]. }
  destruct (embeddings s !! d) as [c|] eqn:Hd.
  2:{ rewrite (load_vector_store_missing _ _ Hm Hd) in Hl. simplify_eq.
      split; [apply extends_refl|done]. }
  rewrite (load_vector_store_disk _ _ c Hm Hd) in Hl. simplify_eq. split.
  - split; simpl; try done.
    + by apply prefix_app_r.
    + intros d' Hd'. destruct (decide (d = d')) as [<-|Hne].
      * by rewrite lookup_insert_eq.
      * by rewrite lookup_insert_ne.
    + intros k h Hk. exists []. by rewrite app_nil_r.
  - intros Hs. apply (sound_heap_app _ [c]) in Hs as [Hdoc Hmer Hn Hc].
    simpl in *. split; simpl; try done.
    + intros d' entry Hin. destruct (decide (d = d')) as [<-|Hne].
      * rewrite lookup_insert_eq in Hin. simplify_eq. simpl.
        split; [|done]. rewrite length_app. simpl. lia.
      * rewrite lookup_insert_ne in Hin by done. by apply (Hdoc d').
    + intros d' entry c' Hin He. destruct (decide (d = d')) as [<-|Hne].
      * rewrite lookup_insert_eq in Hin. simplify_eq. simpl.
        by rewrite list_lookup_middle.
      * rewrite lookup_insert_ne in Hin by done. by eapply Hc.
Qed.

Lemma merged_state_effect key s :
  merged_vector_stores s !! key = None →
  extends s (merged_state key s) ∧ (sound s → sound (merged_state key s)).
Proof.
  intros Hmiss. split.
  - split; simpl; try done.
    + by apply prefix_app_r.
    + by apply insert_subseteq.
    + intros k h Hk. exists []. by rewrite app_nil_r.
  - intros Hs.
    apply (sound_heap_app _
             (concat (persisted s key) :: replicate (length key - 1) []))
      in Hs as [Hdoc Hmer Hn Hc].
    simpl in *. split; simpl; try done.
    intros k vs Hin. destruct (decide (key = k)) as [<-|Hne].
    + rewrite lookup_insert_eq in Hin. simplify_eq.
      rewrite length_app. simpl. lia.
    + rewrite lookup_insert_ne in Hin by done. by apply (Hmer k).
Qed.

Lemma resolve_effect ids s r s' :
  resolve ids s = (r, s') → extends s s' ∧ (sound s → sound s').
Proof.
  intros Hr.
  destruct (decide (length ids = 1%nat)) as [Hone|Hmany].
  { destruct ids as [|d [|? ?]]; try done. rewrite resolve_single in Hr.
    by eapply load_vector_store_effect. }
  destruct (merged_vector_stores s !! ids) as [vs|] eqn:Hc.
  { rewrite (resolve_cached _ _ vs) in Hr by done. simplify_eq.
    split; [apply extends_refl|done]. }
  destruct (decide (Forall (λ d, is_Some (embeddings s !! d)) ids)) as [Hall|Hnot].
  - rewrite Forall_forall in Hall.
    destruct ids as [|d0 [|d1 ids]]; [|done|].
    + rewrite resolve_empty in Hr by done. simplify_eq.
      split; [apply extends_refl|done].
    + rewrite resolve_merge in Hr; [|simpl; lia|done|done]. simplify_eq.
      by apply merged_state_effect.
  - apply not_Forall_Exists in Hnot; [|apply _].
    apply Exists_exists in Hnot as (d & Hin & Hd). simpl in Hd.
    apply eq_None_not_Some in Hd.
    destruct (resolve_merge_missing ids s d) as [loaded Hm]; try done.
    rewrite Hm in Hr. simplify_eq.
    split; [apply extends_heap_app|apply sound_heap_app].
Qed.

(** ** Queries, whatever their outcome *)

Lemma query_document_cases request s r s' :
  query_document request s = (r, s') →
  let key := canonical_key (document_ids request) in
  ∃ rv s1, resolve key s = (rv, s1) ∧
    ((∃ e, r = Raise e ∧ s' = s1) ∨
     (∃ response, r = Ok response ∧
        s' = set_multi_chat_histories
               <[key := default [] (multi_chat_histories s !! key)
                        ++ [(query request, answer response)]]> s1)).
Proof.
  intros Hq key. unfold query_document in Hq. fold key in Hq. munfold.
  destruct (resolve key s) as [[vs|e] s1] eqn:Hr.
  2:{ simplify_eq. exists (Raise e), s'. split; [done|]. left. by exists e. }
  exists (Ok vs), s1. split; [done|].
  pose proof (resolve_frame _ _ _ _ Hr) as (Hh & _).
  unfold qa_chain_invoke in Hq. munfold.
  destruct (similarity_search _ _ _) as [docs|];
    [|simplify_eq; left; by eexists].
  destruct (completion _ _ _ _) as [a|];
    [|simplify_eq; left; by eexists].
  simpl in Hq. simplify_eq. right. eexists. split; [done|]. simpl.
  by rewrite Hh.
Qed.

Lemma query_document_effect request s r s' :
  query_document request s = (r, s') → extends s s' ∧ (sound s → sound s').
Proof.
  intros Hq. apply query_document_cases in Hq as (rv & s1 & Hr & Hcases).
  pose proof (resolve_frame _ _ _ _ Hr) as (Hh & _).
  apply resolve_effect in Hr as [Hext Hsound].
  destruct Hcases as [(e & -> & ->)|(response & -> & ->)]; [done|].
  split.
  - eapply extends_trans; [exact Hext|].
    split; simpl; try done.
    intros k h Hk. rewrite Hh in Hk.
    destruct (decide (canonical_key (document_ids request) = k)) as [<-|Hne].
    + rewrite lookup_insert_eq, Hk. simpl. eauto.
    + rewrite lookup_insert_ne by done. exists []. by rewrite app_nil_r, Hh.
  - intros Hs. destruct (Hsound Hs). by split.
Qed.

(** ** Uploads, whatever their outcome *)

Lemma upload_one_effect f s r s' :
  upload_one f s = (r, s') →
  same_indexes s s' ∧
  (NoDup (row_document_id <$> pdf_metadata s) →
   NoDup (row_document_id <$> pdf_metadata s')).
Proof.
  intros [[-> ->]|(fu & [[_ ->]|[(-> & -> & _)|(-> & Hin & ->)]])]%upload_one_cases;
    (split; [done|]); simpl; try done.
  intros Hn. rewrite fmap_app. apply NoDup_app. split; [done|].
  split; [|apply NoDup_singleton].
  intros d Hd ->%list_elem_of_singleton. by apply Hin.
Qed.

Lemma upload_loop_effect files results s r s' :
  upload_loop files results s = (r, s') →
  same_indexes s s' ∧
  (NoDup (row_document_id <$> pdf_metadata s) →
   NoDup (row_document_id <$> pdf_metadata s')).
Proof.
  revert results s. induction files as [|f files IH]; intros results s;
    cbn [upload_loop]; munfold.
  { by intros [= <- <-]. }
  destruct (upload_one f s) as [[resp|e] s1] eqn:Hu; intros Hl;
    apply upload_one_effect in Hu as [Hsame Hn]; [|by simplify_eq].
  apply IH in Hl as [Hsame' Hn']. split; [|auto].
  destruct Hsame as (? & ? & ? & ? & ?), Hsame' as (? & ? & ? & ? & ?).
  repeat split; congruence.
Qed.

Lemma same_indexes_effect s s' :
  same_indexes s s' →
  extends s s' ∧
  (NoDup (row_document_id <$> pdf_metadata s') → sound s → sound s').
Proof.
  intros (Hd & Hm & Hh & He & Hc). split.
  - split; rewrite ?Hd, ?Hm, ?Hh; try done.
    intros k h Hk. exists []. by rewrite app_nil_r, Hc.
  - intros Hn [Hdoc Hmer _ Hcons].
    split; rewrite ?Hd, ?Hm, ?Hh, ?He; done.
Qed.

(** ** Deletion and background processing *)

Lemma deleted_effect d s :
  extends s (deleted d s) ∧ (sound s → sound (deleted d s)).
Proof.
  split.
  - split; simpl; try done. intros k h Hk. exists []. by rewrite app_nil_r.
  - intros [Hdoc Hmer Hn Hcons]. split; simpl; try done.
    + eapply sublist_NoDup; [exact Hn|]. apply fmap_sublist, sublist_filter.
    + intros d' entry c Hin [_ He]%lookup_delete_Some. by eapply Hcons.
Qed.

Lemma process_pdf_cases p d s r s' :
  process_pdf p d s = (r, s') →
  (∃ e, r = Raise e ∧ s' = s ∧
        ((∃ msg, to_markdown (read_upload p s) = inr msg ∧
                 e = HTTPException 500 (py "Error extracting text: " ++ msg)) ∨
         (∃ text, to_markdown (read_upload p s) = inl text ∧
                  embed_documents (split_text 1000 200 text) = false ∧
                  e = UpstreamError))) ∨
  (∃ text, to_markdown (read_upload p s) = inl text ∧
           embed_documents (split_text 1000 200 text) = true ∧
           r = Ok tt ∧ s' = ingested d (split_text 1000 200 text) s).
Proof.
  unfold process_pdf, extract_text, create_vector_store, from_texts, save_local, alloc.
  munfold. intros Hp.
  destruct (to_markdown _) as [text|msg] eqn:Ht.
  2:{ simplify_eq. left. eexists. repeat split. left. by exists msg. }
  destruct (embed_documents _) eqn:He.
  2:{ simplify_eq. left. eexists. repeat split. right. by exists text. }
  cbn in Hp. simplify_eq. right. exists text. repeat split; try done.
  unfold ingested, set_documents, set_embeddings, set_heap, deref. cbn.
  by rewrite list_lookup_middle.
Qed.

Lemma ingested_effect d chunks s :
  extends s (ingested d chunks s) ∧ (sound s → sound (ingested d chunks s)).
Proof.
  split.
  - split; simpl; try done.
    + by apply prefix_app_r.
    + intros d' Hd'. destruct (decide (d = d')) as [<-|Hne].
      * by rewrite lookup_insert_eq.
      * by rewrite lookup_insert_ne.
    + intros k h Hk. exists []. by rewrite app_nil_r.
  - intros Hs.
    apply (sound_heap_app _ [Build_Document <$> chunks]) in Hs
      as [Hdoc Hmer Hn Hcons].
    simpl in *. split; simpl; try done.
    + intros d' entry Hin. destruct (decide (d = d')) as [<-|Hne].
      * rewrite lookup_insert_eq in Hin. simplify_eq. simpl.
        split; [|done]. rewrite length_app. simpl. lia.
      * rewrite lookup_insert_ne in Hin by done. by apply (Hdoc d').
    + intros d' entry c Hin He. destruct (decide (d = d')) as [<-|Hne].
      * rewrite lookup_insert_eq in Hin. rewrite lookup_insert_eq in He.
        simplify_eq. simpl. by rewrite list_lookup_middle.
      * rewrite lookup_insert_ne in Hin by done.
        rewrite lookup_insert_ne in He by done. by eapply Hcons.
Qed.

(** ** Every step *)

Lemma step_effect s s' : step s s' → extends s s' ∧ (sound s → sound s').
Proof.
  intros Hstep. destruct Hstep as
    [files r s s' Hu|r s s' Hl|request r s s' Hq|d r s s' Hd
    |t q1 q2 r s s' Hq Hp|t q1 q2 s Hq].
  - apply upload_loop_effect in Hu as [Hsame Hn].
    apply same_indexes_effect in Hsame as [Hext Hs]. split; [done|].
    intros Hsound. apply Hs; [|done]. apply Hn, Hsound.
  - unfold list_documents, get in Hl. simplify_eq. split; [apply extends_refl|done].
  - by eapply query_document_effect.
  - rewrite delete_document_spec in Hd. simplify_eq. apply deleted_effect.
  - assert (extends s (set_background_tasks (λ _, q1 ++ q2) s)) as Hext0
      by (split; simpl; try done; intros k h Hk; exists []; by rewrite app_nil_r).
    assert (sound s → sound (set_background_tasks (λ _, q1 ++ q2) s)) as Hs0
      by (intros [? ? ? ?]; by split).
    apply process_pdf_cases in Hp
      as [(e & -> & -> & _)|(text & _ & _ & -> & ->)]; [done|].
    destruct (ingested_effect (task_document_id t) (split_text 1000 200 text)
                (set_background_tasks (λ _, q1 ++ q2) s)) as [Hext Hs].
    split; [by eapply extends_trans|auto].
  - split.
    + split; simpl; try done. intros k h Hk. exists []. by rewrite app_nil_r.
    + intros [? ? ? ?]. by split.
Qed.

Lemma steps_extends s s' : rtc step s s' → extends s s'.
Proof.
  intros Hr. apply (rtc_ind_r (R := step) (λ s', extends s s') s); [| |done].
  - apply extends_refl.
  - intros y z _ Hstep Hext. eapply extends_trans; [exact Hext|].
    by apply step_effect.
Qed.

Lemma steps_sound s s' : rtc step s s' → sound s → sound s'.
Proof.
  intros Hr Hs. apply (rtc_ind_r (R := step) (λ s', sound s') s); [done| |done].
  intros y z _ Hstep Hy. by apply (step_effect y z).
Qed.

Lemma reachable_sound s : reachable s → sound s.
Proof. intros Hr. eapply steps_sound; [exact Hr|apply sound_init]. Qed.

(** ** [merge_vector_stores] *)

Lemma merge_others_all_base base others s :
  Forall (λ vs, vs = base) others → merge_others base others s = (Ok tt, s).
Proof.
  induction 1 as [|vs others -> _ IH]; cbn [merge_others]; [done|].
  munfold. by rewrite bool_decide_eq_false_2 by (by intros []).
Qed.

(** Without the base among the others the guard of line 147 always passes:
    the loop makes the calls of the loop of lines 249-250. *)
Lemma merge_others_merge_all base others s :
  base ∉ others → merge_others base others s = merge_all base others s.
Proof.
  revert s. induction others as [|vs others IH]; intros s Hb;
    cbn [merge_others merge_all]; [done|].
  apply not_elem_of_cons in Hb as [Hne Hb]. munfold.
  rewrite bool_decide_eq_true_2 by done.
  destruct (merge_from base vs s) as [[[]|e] s1]; [|done]. by apply IH.
Qed.

(** X2. Merging an index with itself does nothing: when every entry of the
    list is the base object, [merge_vector_stores] returns it and the state
    is exactly as before (the [vs is not base_vs] guard). *)
Theorem merge_vector_stores_self (base_vs : loc) (others : list loc) (s : state) :
  Forall (λ vs, vs = base_vs) others →
  merge_vector_stores (base_vs :: others) s = (Ok base_vs, s).
Proof.
  intros Hall. unfold merge_vector_stores. munfold.
  by rewrite merge_others_all_base.
Qed.

(** X3. [merge_vector_stores] against the loop of [query_document]: on
    an empty list it raises 400 "No vector stores to merge" and changes
    nothing; on a list whose first object does not come again it makes
    exactly the [merge_from] calls of lines 248-250, in the same order, and
    returns the first object: same result, same state. *)
Theorem merge_vector_stores_inline_loop (s : state) :
  merge_vector_stores [] s
  = (Raise (HTTPException 400 (py "No vector stores to merge")), s) ∧
  ∀ base_vs others, base_vs ∉ others →
    merge_vector_stores (base_vs :: others) s
    = (merge_all base_vs others;; ret base_vs) s.
Proof.
  split; [done|]. intros base_vs others Hb.
  unfold merge_vector_stores. munfold. by rewrite merge_others_merge_all.
Qed.

(** ** Ingestion *)

Lemma canonical_key_singleton d : canonical_key [d] = [d].
Proof.
  apply canonical_key_unique; [|by apply NoDup_singleton|done].
  repeat constructor.
Qed.

Lemma deref_alloc (h : list (list Document)) c s :
  heap s = h ++ [c] → deref s (length h) = c.
Proof. intros Hh. unfold deref. by rewrite Hh, list_lookup_middle. Qed.

(** X4. Persist and load round trip: when [create_vector_store] succeeds,
    the new index holds one entry per chunk of the split text, in order;
    what is persisted under the document id is exactly that content; and
    [FAISS.load_local] of the id then yields a further object with the same
    content, the first one being left as it is. *)
Theorem create_vector_store_round_trip
    (text document_id : str) (vs : loc) (s s' : state) :
  create_vector_store text document_id s = (Ok vs, s') →
  deref s' vs = Build_Document <$> split_text 1000 200 text ∧
  embeddings s' !! document_id = Some (deref s' vs) ∧
  ∃ vs' s'',
    load_local document_id s' = (Ok vs', s'') ∧ vs' ≠ vs ∧
    deref s'' vs' = deref s' vs ∧ deref s'' vs = deref s' vs.
Proof.
  unfold create_vector_store, from_texts, save_local, alloc. munfold.
  intros Hc. destruct (embed_documents _); [|done]. cbn in Hc. simplify_eq.
  set (c := Build_Document <$> split_text 1000 200 text).
  set (s' := set_embeddings _ _).
  assert (deref s' (length (heap s)) = c) as Hd by (by apply deref_alloc).
  assert (embeddings s' !! document_id = Some c) as He.
  { unfold s'. simpl. rewrite lookup_insert_eq. f_equal.
    by apply deref_alloc. }
  split; [done|]. split; [by rewrite Hd|].
  rewrite (load_local_Some _ _ c He).
  eexists _, _. split; [done|]. simpl. rewrite length_app. simpl.
  split; [lia|]. rewrite Hd. split.
  - unfold deref. simpl. replace (length (heap s) + 1)%nat
      with (length (heap s ++ [c])) by (rewrite length_app; simpl; lia).
    by rewrite list_lookup_middle.
  - unfold deref. simpl. rewrite lookup_app_l by (rewrite length_app; simpl; lia).
    by rewrite list_lookup_middle.
Qed.

(** X5. From pending to ready: when [process_pdf] succeeds, the document
    is registered with a new index and an empty chat history, the index
    content is what was persisted under its id, every other [documents]
    entry and every older object is as before, and a single-document
    resolve of the id returns that index without touching the state. *)
Theorem process_pdf_makes_ready
    (file_path : upload_path) (document_id : str) (s s' : state) :
  process_pdf file_path document_id s = (Ok tt, s') →
  let vs := length (heap s) in
  documents s' !! document_id = Some {| vector_store := vs; chat_history := [] |} ∧
  embeddings s' !! document_id = Some (deref s' vs) ∧
  (∀ d, d ≠ document_id → documents s' !! d = documents s !! d ∧
                          embeddings s' !! d = embeddings s !! d) ∧
  heap s `prefix_of` heap s' ∧
  resolve (canonical_key [document_id]) s' = (Ok vs, s').
Proof.
  intros Hp vs.
  apply process_pdf_cases in Hp as [(e & [=] & _)|(text & _ & _ & _ & ->)].
  assert (documents (ingested document_id (split_text 1000 200 text) s)
            !! document_id
          = Some {| vector_store := vs; chat_history := [] |}) as Hd
    by (simpl; by rewrite lookup_insert_eq).
  split; [done|]. split.
  { simpl. rewrite lookup_insert_eq. f_equal. symmetry. by apply deref_alloc. }
  split.
  { intros d Hne. simpl. by rewrite !lookup_insert_ne. }
  split; [simpl; by apply prefix_app_r|].
  rewrite canonical_key_singleton, resolve_single.
  by rewrite (load_vector_store_memory _ _ _ Hd).
Qed.

(** X6. A failed ingestion changes nothing: when [process_pdf] raises, the
    state is exactly as before, so the document stays unregistered and
    unpersisted; the exception is the 500 of [extract_text], carrying the
    extractor's message, or the embedding call's own error. *)
Theorem process_pdf_failure_changes_nothing
    (file_path : upload_path) (document_id : str) (e : exn) (s s' : state) :
  process_pdf file_path document_id s = (Raise e, s') →
  s' = s ∧ http_status e = 500 ∧
  ((∃ msg, e = HTTPException 500 (py "Error extracting text: " ++ msg)) ∨
   e = UpstreamError).
Proof.
  intros Hp.
  apply process_pdf_cases in Hp as [(e' & [= <-] & -> & He)|(text & _ & _ & [=] & _)].
  split; [done|].
  destruct He as [(msg & _ & ->)|(text & _ & _ & ->)].
  - split; [done|]. left. by exists msg.
  - split; [done|]. by right.
Qed.

(** X7. Deleting before processing: once [delete_document] ran for an id,
    the upload directory of the id is gone, so if the extractor fails on a
    missing file, the task scheduled for that id fails with 500 and
    registers nothing. *)
Theorem process_pdf_after_delete
    (document_id name msg : str) (s : state) :
  to_markdown None = inr msg →
  process_pdf {| path_dir := document_id; path_name := name |} document_id
    (deleted document_id s)
  = (Raise (HTTPException 500 (py "Error extracting text: " ++ msg)),
     deleted document_id s).
Proof.
  intros Hm. unfold process_pdf, extract_text. munfold.
  unfold read_upload. cbn [path_dir path_name].
  replace (uploads (deleted document_id s) !! document_id) with (@None (gmap str (list N)))
    by (simpl; by rewrite lookup_delete_eq).
  cbn. by rewrite Hm.
Qed.

(** ** Pending documents *)

(** X8. A query naming only a document that was just uploaded and not yet
    processed fails with 404 "Document not found" and changes nothing
    (reachable state, id generator without repetitions, files with plain
    names). *)
Theorem pending_query_not_found
    (files : list UploadFile) (i : nat) (f : UploadFile) (q : str) (s : state) :
  Inj (=) (=) uuid4 → reachable s →
  Forall (λ f, is_pdf f = true) files →
  Forall (λ f, plain_name (filename f) = true) files → files !! i = Some f →
  ∃ s', upload_pdf files s = (Ok (imap (batch_response s) files), s') ∧
        imap (batch_response s) files !! i = Some (batch_response s i f) ∧
        query_document
          {| document_ids := [document_id (batch_response s i f)]; query := q |} s'
        = (Raise (HTTPException 404 (py "Document not found")), s').
Proof.
  intros Hinj Hs Hall Hplain Hi. apply reachable_wf in Hs.
  assert (Forall (λ f, is_pdf f = true → plain_name (filename f) = true) files)
    as Hplain' by (eapply Forall_impl; [exact Hplain|auto]).
  exists (foldl uploaded s files).
  pose proof (upload_loop_ok files [] s Hinj Hs Hall Hplain') as Hok.
  pose proof (upload_loop_frame _ _ _ _ _ Hok Hs) as [_ (Hd & _ & _ & He & _)].
  unfold upload_pdf. rewrite Hok, upload_responses_batch.
  split; [done|]. split; [by rewrite list_lookup_imap, Hi|].
  unfold query_document. cbv zeta. cbn [document_ids document_id batch_response].
  rewrite canonical_key_singleton. munfold. rewrite resolve_single.
  rewrite load_vector_store_missing; [done| |].
  - rewrite Hd. apply eq_None_not_Some. intros Hin.
    apply (not_issued_batch_id s i Hinj). by apply (wf_documents _ Hs).
  - rewrite He. apply eq_None_not_Some. intros Hin.
    apply (not_issued_batch_id s i Hinj). by apply (wf_embeddings _ Hs).
Qed.

(** ** Listing *)

(** X9. The listing after an accepted upload is the listing before
    followed by one row per file, in request order, with the file's name,
    its size in bytes and the id answered for it; listing changes nothing
    (reachable state, id generator without repetitions, files with plain
    names). *)
Theorem list_documents_after_upload (files : list UploadFile) (s : state) :
  Inj (=) (=) uuid4 → reachable s →
  Forall (λ f, is_pdf f = true) files →
  Forall (λ f, plain_name (filename f) = true) files →
  ∃ s', upload_pdf files s = (Ok (imap (batch_response s) files), s') ∧
        list_documents s' = (Ok (pdf_metadata s ++ imap (batch_row s) files), s') ∧
        row_document_id <$> imap (batch_row s) files
        = document_id <$> imap (batch_response s) files ∧
        ∀ i f, files !! i = Some f →
          ∃ row, imap (batch_row s) files !! i = Some row ∧
                 row_filename row = filename f ∧
                 row_size row = Z.of_nat (length (file f)).
Proof.
  intros Hinj Hs Hall Hplain. apply reachable_wf in Hs.
  assert (Forall (λ f, is_pdf f = true → plain_name (filename f) = true) files)
    as Hplain' by (eapply Forall_impl; [exact Hplain|auto]).
  exists (foldl uploaded s files).
  unfold upload_pdf. rewrite upload_loop_ok, upload_responses_batch by done.
  split; [done|]. unfold list_documents, get. rewrite uploaded_all_metadata.
  split; [done|]. split.
  - rewrite !fmap_imap. by apply imap_ext.
  - intros i f Hi. exists (batch_row s i f).
    by rewrite list_lookup_imap, Hi.
Qed.



(** X12. Deletions commute: deleting two documents in either order leads
    to the same state. *)
Theorem delete_document_commute (d1 d2 : str) (s : state) :
  (delete_document d2 (delete_document d1 s).2).2
  = (delete_document d1 (delete_document d2 s).2).2.
Proof.
  repeat (rewrite delete_document_spec; cbn [snd]).
  unfold deleted, set_embeddings, set_uploads, set_pdf_metadata. cbn.
  f_equal; try apply delete_delete.
  rewrite !list_filter_filter. apply list_filter_iff. intros r. tauto.
Qed.

(** X13. [delete_document] does not touch the in-memory dictionaries: the
    [documents] map, the session cache, the conversations and the objects
    are as before; so a document that is registered in [documents] still
    resolves to its index after its deletion, and a cached session still
    resolves to the cached index. *)
Theorem delete_document_keeps_memory (d : str) (s : state) :
  let s' := (delete_document d s).2 in
  documents s' = documents s ∧
  merged_vector_stores s' = merged_vector_stores s ∧
  multi_chat_histories s' = multi_chat_histories s ∧
  heap s' = heap s ∧
  (∀ entry, documents s !! d = Some entry →
     resolve (canonical_key [d]) s' = (Ok (vector_store entry), s')) ∧
  (∀ key vs, length key ≠ 1%nat → merged_vector_stores s !! key = Some vs →
     resolve key s' = (Ok vs, s')).
Proof.
  intros s'. unfold s'. rewrite delete_document_spec. cbn [snd].
  repeat split.
  - intros entry Hm. rewrite canonical_key_singleton, resolve_single.
    by apply load_vector_store_memory.
  - intros key vs Hlen Hc. by apply resolve_cached.
Qed.


(** ** What holds of every reachable state *)

(** X15. The listing never shows an id twice: in every reachable state the
    rows returned by [list_documents] have pairwise distinct ids, and the
    call changes nothing. *)
Theorem listing_ids_distinct (s : state) :
  reachable s →
  ∃ rows, list_documents s = (Ok rows, s) ∧ NoDup (row_document_id <$> rows).
Proof.
  intros Hs. exists (pdf_metadata s). split; [done|].
  by apply reachable_sound.
Qed.

(** X16. No dangling index: in every reachable state the index recorded
    for a document in [documents] and the index cached for a session in
    [merged_vector_stores] are existing objects. *)
Theorem no_dangling_index (s : state) :
  reachable s →
  (∀ d entry, documents s !! d = Some entry →
     is_Some (heap s !! vector_store entry)) ∧
  (∀ key vs, merged_vector_stores s !! key = Some vs → is_Some (heap s !! vs)).
Proof.
  intros Hs%reachable_sound. split.
  - intros d entry Hin. apply lookup_lt_is_Some_2.
    by destruct (sound_documents _ Hs d entry Hin).
  - intros key vs Hin. apply lookup_lt_is_Some_2.
    by apply (sound_merged _ Hs key).
Qed.

(** X17. The per-document ["chat_history"] is never written: in every
    reachable state each [documents] entry has an empty one, however many
    queries were answered; conversations live in [multi_chat_histories]
    only. *)
Theorem document_chat_history_unused (s : state) (d : str) (entry : doc_entry) :
  reachable s → documents s !! d = Some entry → chat_history entry = [].
Proof.
  intros Hs%reachable_sound Hin.
  by destruct (sound_documents _ Hs d entry Hin).
Qed.

(** X18. The live index of a document whose persisted copy exists has the
    persisted content: in every reachable state, if [documents] holds the
    document and [embeddings/{id}] exists, the registered object's content
    is the persisted one, and a single-document resolve returns that
    object. *)
Theorem live_index_matches_persisted
    (s : state) (d : str) (entry : doc_entry) (c : FAISS) :
  reachable s → documents s !! d = Some entry → embeddings s !! d = Some c →
  deref s (vector_store entry) = c ∧
  resolve (canonical_key [d]) s = (Ok (vector_store entry), s).
Proof.
  intros Hs%reachable_sound Hin He. split.
  - unfold deref. by rewrite (sound_consistent _ Hs d entry c).
  - rewrite canonical_key_singleton, resolve_single.
    by apply load_vector_store_memory.
Qed.

(** ** What no sequence of requests undoes *)

(** X19. Index objects are never changed once a request is over: whatever
    requests and tasks follow, an object that exists keeps its content. *)
Theorem index_objects_immutable (s s' : state) (l : loc) (c : FAISS) :
  rtc step s s' → heap s !! l = Some c → heap s' !! l = Some c.
Proof.
  intros Hsteps%steps_extends Hl.
  eapply prefix_lookup_Some; [exact Hl|]. apply Hsteps.
Qed.

(** X20. The session cache is never invalidated: an entry of a reachable
    state stays, with the same object and the same content, whatever
    requests, deletions and ingestions follow, and the key keeps resolving
    to it. *)
Theorem session_cache_never_invalidated
    (s s' : state) (key : list str) (vs : loc) :
  reachable s → rtc step s s' →
  merged_vector_stores s !! key = Some vs →
  merged_vector_stores s' !! key = Some vs ∧
  deref s' vs = deref s vs ∧
  resolve key s' = (Ok vs, s').
Proof.
  intros Hs Hsteps Hin.
  pose proof (reachable_sound _ Hs) as Hsound.
  pose proof (reachable_wf _ Hs) as Hwf.
  apply steps_extends in Hsteps as [Hheap _ Hmerged _].
  assert (merged_vector_stores s' !! key = Some vs) as Hin'
    by (by eapply lookup_weaken).
  split; [done|]. split.
  - destruct (lookup_lt_is_Some_2 (heap s) vs) as [c Hc];
      [by apply (sound_merged _ Hsound key)|].
    unfold deref. by rewrite Hc, (prefix_lookup_Some _ _ _ _ Hc Hheap).
  - apply resolve_cached; [|done].
    pose proof (wf_merged _ Hwf key (mk_is_Some _ _ Hin)). lia.
Qed.

(** X21. A registered document is never evicted: once an id is in
    [documents], it stays there whatever follows, so a single-document
    resolve of it keeps succeeding from memory and changes nothing. *)
Theorem documents_never_evicted (s s' : state) (d : str) :
  rtc step s s' → is_Some (documents s !! d) →
  ∃ entry, documents s' !! d = Some entry ∧
           resolve (canonical_key [d]) s' = (Ok (vector_store entry), s').
Proof.
  intros Hsteps%steps_extends Hin.
  destruct (extends_documents _ _ Hsteps d Hin) as [entry Hentry].
  exists entry. split; [done|].
  rewrite canonical_key_singleton, resolve_single.
  by apply load_vector_store_memory.
Qed.

(** X22. Conversations only grow: whatever follows, the history of a
    session key is its earlier history with further turns appended;
    nothing is dropped or rewritten. *)
Theorem histories_only_grow (s s' : state) (key : list str) (h : list turn) :
  rtc step s s' → multi_chat_histories s !! key = Some h →
  ∃ later, multi_chat_histories s' !! key = Some (h ++ later).
Proof. intros Hsteps%steps_extends Hk. by apply (extends_histories _ _ Hsteps). Qed.

(** ** Queries *)

(** X23. A failed query records no turn and rolls nothing back: the state
    it leaves is the state [resolve] left, with every conversation, the
    persisted layout and the table as before the query. *)
Theorem failed_query_keeps_history
    (request : QueryRequest) (e : exn) (s s' : state) :
  query_document request s = (Raise e, s') →
  (∃ rv, resolve (canonical_key (document_ids request)) s = (rv, s')) ∧
  multi_chat_histories s' = multi_chat_histories s ∧
  embeddings s' = embeddings s ∧ uploads s' = uploads s ∧
  pdf_metadata s' = pdf_metadata s.
Proof.
  intros Hq. apply query_document_cases in Hq as (rv & s1 & Hr & Hcases).
  destruct Hcases as [(e' & _ & ->)|(response & [=] & _)].
  pose proof (resolve_frame _ _ _ _ Hr) as (? & ? & ? & ? & _).
  split; [by exists rv|done].
Qed.

Lemma preview_length text :
  length (preview text) = (min 100 (length text) + 3)%nat.
Proof. unfold preview, slice_to. by rewrite length_app, length_take. Qed.

(** X24. What a source snippet looks like: a text of at most 100
    characters is returned whole with "..." appended, a longer one is cut
    to its first 100 characters before the "..."; so a snippet has at most
    103 characters and always ends with "...". *)
Theorem preview_shape (text : str) :
  ((length text ≤ 100)%nat → preview text = text ++ py "...") ∧
  ((100 < length text)%nat →
     length (preview text) = 103%nat ∧ take 100 (preview text) = take 100 text) ∧
  (length (preview text) ≤ 103)%nat ∧
  py "..." `suffix_of` preview text.
Proof.
  split; [|split; [|split]].
  - intros Hle. unfold preview, slice_to. by rewrite take_ge.
  - intros Hlt. split; [rewrite preview_length; lia|].
    unfold preview, slice_to. rewrite take_app_le by (rewrite length_take; lia).
    rewrite take_take. f_equal.
  - rewrite preview_length. lia.
  - by apply suffix_app_r.
Qed.

(** X25. Every source of a successful query is such a snippet: at most 103
    characters long and ending with "...". *)
Theorem sources_are_snippets
    (request : QueryRequest) (response : QueryResponse) (s s' : state) :
  query_document request s = (Ok response, s') →
  Forall (λ src, (length src ≤ 103)%nat ∧ py "..." `suffix_of` src)
    (sources response).
Proof.
  intros Hq.
  apply query_document_Ok in Hq as (vs & s1 & docs & _ & _ & _ & -> & _).
  apply Forall_fmap, Forall_forall. intros d _. simpl. split.
  - rewrite preview_length. lia.
  - by apply suffix_app_r.
Qed.

(** ** Session keys again *)

(** X26. Canonicalizing is idempotent and never lengthens: the key of a
    key is the key itself, a list that is already ascending without
    repetitions is its own key, and a key has at most as many members as
    the request listed ids. *)
Theorem canonical_key_idempotent (ids : list str) :
  canonical_key (canonical_key ids) = canonical_key ids ∧
  (StronglySorted str_le ids → NoDup ids → canonical_key ids = ids) ∧
  (length (canonical_key ids) ≤ length ids)%nat.
Proof.
  split; [|split].
  - apply canonical_key_unique;
      [apply canonical_key_sorted|apply canonical_key_NoDup|done].
  - intros Hs Hn. by apply canonical_key_unique.
  - apply submseteq_length, NoDup_submseteq; [apply canonical_key_NoDup|].
    intros d. by rewrite elem_of_canonical_key.
Qed.

(** ** Restart *)

(** X27. A ready document survives a restart: in a reachable state, a
    document that is registered and persisted resolves, in a new process
    on the same disk, to a new object with the content its live index had;
    the session cache and the conversations start empty. *)
Theorem restart_reloads_document
    (s : state) (d : str) (entry : doc_entry) (c : FAISS) :
  reachable s → documents s !! d = Some entry → embeddings s !! d = Some c →
  ∃ s', resolve (canonical_key [d]) (restart s) = (Ok 0%nat, s') ∧
        deref s' 0 = deref s (vector_store entry) ∧
        documents s' !! d = Some {| vector_store := 0; chat_history := [] |} ∧
        merged_vector_stores s' = ∅ ∧ multi_chat_histories s' = ∅ ∧
        embeddings s' = embeddings s ∧ pdf_metadata s' = pdf_metadata s.
Proof.
  intros Hs%reachable_sound Hin He.
  rewrite canonical_key_singleton, resolve_single.
  rewrite (load_vector_store_disk _ _ c) by done.
  eexists. split; [done|]. simpl. split.
  - unfold deref. simpl. by rewrite (sound_consistent _ Hs d entry c).
  - by rewrite lookup_insert_eq.
Qed.

(** ** Upload names and id collisions *)

Lemma endswith_suffix (text suffix : str) :
  endswith text suffix = true ↔ ∃ stem, text = stem ++ suffix.
Proof.
  unfold endswith. rewrite bool_decide_eq_true. split.
  - intros Hd. exists (take (length text - length suffix) text).
    rewrite <- (take_drop (length text - length suffix) text) at 1.
    by rewrite Hd.
  - intros [stem ->]. rewrite length_app.
    replace (length stem + length suffix - length suffix)%nat
      with (length stem) by lia.
    apply drop_app_length.
Qed.

(** X28. Which names are accepted: a file passes the upload check exactly
    when its lower-cased name is some stem, possibly empty, followed by
    ".pdf"; in particular a lower-cased name shorter than four characters
    never passes. *)
Theorem is_pdf_iff (f : UploadFile) :
  (is_pdf f = true ↔ ∃ stem, lower (filename f) = stem ++ py ".pdf") ∧
  ((length (lower (filename f)) < 4)%nat → is_pdf f = false).
Proof.
  split; [apply endswith_suffix|].
  intros Hlen. apply not_true_is_false. intros [stem Hs]%endswith_suffix.
  rewrite Hs, length_app in Hlen. change (length (py ".pdf")) with 4%nat in Hlen.
  lia.
Qed.

(** X29. An id collision: when the id drawn for an accepted file with a
    plain name already has a row, the INSERT raises and the request fails
    with a 500, other than the handler's own 400; by then the file is
    written under that id, while the table and the task queue are as
    before, and no further file of the request is looked at. *)
Theorem upload_id_collision (f : UploadFile) (rest : list UploadFile) (s : state) :
  is_pdf f = true → plain_name (filename f) = true →
  upload_id s ∈ row_document_id <$> pdf_metadata s →
  ∃ s', upload_pdf (f :: rest) s = (Raise IntegrityError, s') ∧
        http_status IntegrityError = 500 ∧
        uploads s' !! upload_id s ≫= (λ dir, dir !! filename f) = Some (file f) ∧
        pdf_metadata s' = pdf_metadata s ∧
        background_tasks s' = background_tasks s ∧
        documents s' = documents s.
Proof.
  intros Hf Hp Hin. unfold upload_pdf. cbn [upload_loop]. unfold upload_one.
  rewrite Hf. cbn [negb]. unfold fresh_uuid. munfold.
  rewrite write_upload_plain by done.
  unfold now_isoformat, insert_metadata, add_task.
  munfold. cbn. rewrite bool_decide_eq_true_2 by done.
  eexists. split; [done|]. simpl. repeat split.
  unfold upload_id. rewrite lookup_insert_eq. simpl. by rewrite lookup_insert_eq.
Qed.

End Lifecycle.

(** * Scenarios with the test doubles *)

Import Demo.
#[local] Existing Instance Demo.collaborators.

Lemma demo_uuid4_inj : Inj (=) (=) (@uuid4 Demo.collaborators).
Proof.
  intros n m Heq. cbn in Heq. apply app_inv_head in Heq.
  injection Heq as Heq. lia.
Qed.

Lemma exec_upload_step files s : step s (Demo.exec (upload_pdf files) s).
Proof. eapply step_upload. apply surjective_pairing. Qed.

Lemma exec_query_step request s : step s (Demo.exec (query_document request) s).
Proof. eapply step_query. apply surjective_pairing. Qed.

Lemma exec_delete_step d s : step s (Demo.exec (delete_document d) s).
Proof. eapply step_delete. apply surjective_pairing. Qed.

Lemma run_task_steps s : rtc step s (Demo.run_task s).
Proof.
  unfold Demo.run_task. destruct (background_tasks s) as [|t q] eqn:Hq; [done|].
  apply rtc_once. eapply (step_task t [] q); [done|]. apply surjective_pairing.
Qed.

Lemma s_ready_reachable : reachable s_ready.
Proof.
  unfold reachable, s_ready.
  eapply rtc_trans; [|apply run_task_steps].
  eapply rtc_trans; [|apply run_task_steps].
  apply rtc_once, exec_upload_step.
Qed.

Lemma s_deleted_reachable : reachable s_deleted.
Proof.
  unfold reachable, s_deleted, s_cached.
  eapply rtc_r; [|apply exec_delete_step].
  eapply rtc_r; [|apply exec_query_step].
  apply s_ready_reachable.
Qed.

Example s_ready_contents :
  map_to_list (embeddings s_ready)
  = [(id1, [{| page_content := py "gamma" |}]);
     (id0, [{| page_content := py "alpha" |}; {| page_content := py "beta" |}])]
  ∧ vector_store <$> documents s_ready !! id0 = Some 0%nat
  ∧ vector_store <$> documents s_ready !! id1 = Some 1%nat
  ∧ background_tasks s_ready = [].
Proof. vm_compute. done. Qed.


(** C5. Delete completeness fails on the code: [delete_document] removes
    the row and both directories but not the [documents] entry, so after
    upload, processing and deletion of a document, a query naming only that
    document is still answered from the index left in memory. *)
Theorem delete_leaves_memory_entry :
  embeddings s_deleted !! id1 = None ∧
  uploads s_deleted !! id1 = None ∧
  (id1 ∉ row_document_id <$> pdf_metadata s_deleted) ∧
  vector_store <$> documents s_deleted !! id1 = Some 1%nat ∧
  Demo.eval (resolve (canonical_key [id1])) s_deleted = Ok 1%nat ∧
  Demo.eval (query_document (ask [id1])) s_deleted
  = Ok {| answer := py "re: hi"; sources := [py "gamma..."] |}.
Proof.
  repeat split; try (vm_compute; reflexivity).
  intros Hin. vm_compute in Hin.
  apply elem_of_cons in Hin as [Hin|Hin]; [discriminate Hin|by apply elem_of_nil in Hin].
Qed.

(** ** The theorems at concrete requests *)

Lemma s_ready_persisted d : d ∈ [id1; id0] → is_Some (embeddings s_ready !! d).
Proof.
  intros [->|[->|Hd]%elem_of_cons]%elem_of_cons;
    [vm_compute; eauto..|by apply elem_of_nil in Hd].
Qed.

Lemma session_key_canonicalization_witness :
  let ids1 := [id1; id0] in
  let ids2 := [id0; id1; id0] in
  (ids1 ≠ [] ∧ (∀ d, d ∈ ids1 ↔ d ∈ ids2) ∧
   (∀ d, d ∈ ids1 → is_Some (embeddings s_ready !! d))) ∧
  canonical_key ids1 = canonical_key ids2 ∧
  ∃ vs s1, resolve (canonical_key ids1) s_ready = (Ok vs, s1) ∧
           resolve (canonical_key ids2) s1 = (Ok vs, s1).
Proof.
  intros ids1 ids2.
  assert (ids1 ≠ []) as H1 by done.
  assert (∀ d, d ∈ ids1 ↔ d ∈ ids2) as H2
    by (intros d; unfold ids1, ids2; rewrite !elem_of_cons, elem_of_nil; tauto).
  pose proof s_ready_persisted as H3.
  split; [exact (conj H1 (conj H2 H3))|].
  destruct (session_key_canonicalization ids1 ids2 s_ready H1 H2 H3)
    as (Hk & _ & _ & _ & vs & s1 & Hr1 & _ & Hr2 & _).
  split; [exact Hk|]. exists vs, s1. exact (conj Hr1 Hr2).
Defined.

Lemma single_document_bypass_witness :
  canonical_key [id0; id0] = [id0] ∧
  resolve (canonical_key [id0; id0]) s_ready = load_vector_store id0 s_ready ∧
  ∀ r s', resolve (canonical_key [id0; id0]) s_ready = (r, s') →
          merged_vector_stores s' = merged_vector_stores s_ready.
Proof.
  assert (canonical_key [id0; id0] = [id0]) as Hk by (vm_compute; reflexivity).
  split; [exact Hk|].
  destruct (single_document_bypass [id0; id0] id0 s_ready Hk)
    as (Hl & _ & _ & Hframe).
  split; [exact Hl|]. intros r s' Hr. exact (proj1 (Hframe r s' Hr)).
Defined.

Lemma merge_frame_witness :
  let key := canonical_key [id1; id0] in
  ((2 ≤ length key)%nat ∧ merged_vector_stores s_ready !! key = None) ∧
  ∃ s', resolve key s_ready = (Ok 2%nat, s') ∧
        deref s' 2 = [{| page_content := py "alpha" |};
                      {| page_content := py "beta" |};
                      {| page_content := py "gamma" |}] ∧
        documents s' = documents s_ready.
Proof.
  intros key.
  assert ((2 ≤ length key)%nat) as H1 by (vm_compute; lia).
  assert (merged_vector_stores s_ready !! key = None) as H2
    by (vm_compute; reflexivity).
  assert (∀ d, d ∈ key → is_Some (embeddings s_ready !! d)) as H3
    by (intros d Hd; apply s_ready_persisted, (elem_of_canonical_key [id1; id0]), Hd).
  split; [exact (conj H1 H2)|].
  destruct (merge_frame [id1; id0] s_ready H1 H2) as (Hframe & Hmerge).
  destruct (Hmerge H3) as (s' & Hr & Hc & _ & _).
  exists s'. split; [exact Hr|]. split; [|exact (proj1 (Hframe _ _ Hr))].
  transitivity (concat (persisted s_ready key)); [exact Hc|].
  vm_compute. reflexivity.
Defined.


Lemma conversation_history_witness :
  (canonical_key [id0; id1] = canonical_key [id1; id0; id1] ∧
   query_document (ask [id1; id0; id1]) s_ready = (Ok response_hi, s_cached) ∧
   query_document (ask [id0; id1]) s_cached = (Ok response_hi, s_asked_twice)) ∧
  multi_chat_histories s_cached !! [id0; id1] = Some [(py "hi", py "re: hi")] ∧
  multi_chat_histories s_asked_twice !! [id0; id1]
  = Some [(py "hi", py "re: hi"); (py "hi", py "re: hi")].
Proof.
  assert (canonical_key [id0; id1] = canonical_key [id1; id0; id1]) as H1
    by (vm_compute; reflexivity).
  assert (query_document (ask [id1; id0; id1]) s_ready = (Ok response_hi, s_cached))
    as H2 by (vm_compute; reflexivity).
  assert (query_document (ask [id0; id1]) s_cached = (Ok response_hi, s_asked_twice))
    as H3 by (vm_compute; reflexivity).
  split; [exact (conj H1 (conj H2 H3))|].
  destruct (conversation_history (ask [id1; id0; id1]) (ask [id0; id1])
              response_hi response_hi s_ready s_cached s_asked_twice H1 H2 H3)
    as (Hone & _ & _ & Htwo & _).
  split.
  - rewrite Hone. vm_compute. reflexivity.
  - refine (eq_trans Htwo _). vm_compute. reflexivity.
Defined.

Lemma evidence_list_shape_witness :
  query_document (ask [id1; id0; id1]) s_ready = (Ok response_hi, s_cached) ∧
  ∃ docs, sources response_hi = (λ d, take 100 (page_content d) ++ py "...") <$> docs ∧
          length docs = 3%nat.
Proof.
  assert (query_document (ask [id1; id0; id1]) s_ready = (Ok response_hi, s_cached))
    as H1 by (vm_compute; reflexivity).
  split; [exact H1|].
  destruct (evidence_list_shape (ask [id1; id0; id1]) response_hi s_ready s_cached H1)
    as (vs & s1 & docs & _ & _ & Hsrc & Hlen).
  exists docs. split; [exact Hsrc|]. rewrite <- Hlen. reflexivity.
Defined.

Lemma upload_validation_witness :
  (Inj (=) (=) (@uuid4 Demo.collaborators) ∧ reachable init ∧
   Forall (λ f, is_pdf f = true → plain_name (filename f) = true)
     [Demo.pdf "notes.txt" "x"] ∧
   Forall (λ f, is_pdf f = true → plain_name (filename f) = true)
     [Demo.pdf "Notes.PDF" "x"]) ∧
  (∃ detail s', upload_pdf [Demo.pdf "notes.txt" "x"] init
                = (Raise (HTTPException 400 detail), s')) ∧
  (∃ s', upload_pdf [Demo.pdf "Notes.PDF" "x"] init
         = (Ok [{| document_id := id0;
                   message := py "PDF 'Notes.PDF' uploaded and processing started" |}],
            s') ∧
         documents s' !! id0 = None).
Proof.
  assert (reachable init) as H1 by apply rtc_refl.
  assert (Forall (λ f, is_pdf f = true → plain_name (filename f) = true)
            [Demo.pdf "notes.txt" "x"]) as H2
    by (constructor; [intros _; vm_compute; reflexivity|constructor]).
  assert (Forall (λ f, is_pdf f = true → plain_name (filename f) = true)
            [Demo.pdf "Notes.PDF" "x"]) as H3
    by (constructor; [intros _; vm_compute; reflexivity|constructor]).
  split; [exact (conj demo_uuid4_inj (conj H1 (conj H2 H3)))|].
  split.
  - destruct (upload_validation [Demo.pdf "notes.txt" "x"] init demo_uuid4_inj H1 H2)
      as (Hreject & _).
    destruct Hreject as (detail & s' & Hr & _).
    + exists (Demo.pdf "notes.txt" "x"). split; [left|]. vm_compute. reflexivity.
    + exists detail, s'. exact Hr.
  - destruct (upload_validation [Demo.pdf "Notes.PDF" "x"] init demo_uuid4_inj H1 H3)
      as (_ & Haccept).
    destruct Haccept as (s' & Hr & _ & _ & _ & Hfile).
    + constructor; [vm_compute; reflexivity|constructor].
    + exists s'. split; [exact Hr|].
      destruct (Hfile 0%nat (Demo.pdf "Notes.PDF" "x") eq_refl) as (_ & _ & Hd & _).
      exact Hd.
Defined.

Lemma empty_query_unhandled_witness :
  reachable s_deleted ∧
  query_document (ask []) s_deleted = (Raise IndexError, s_deleted).
Proof.
  split; [apply s_deleted_reachable|].
  destruct (empty_query_unhandled (py "hi") s_deleted s_deleted_reachable)
    as (_ & _ & _ & Hq & _).
  exact Hq.
Defined.

Lemma upload_batch_not_atomic_witness :
  let pre := [Demo.pdf "a.pdf" "alpha"] in
  let bad := Demo.pdf "b.txt" "beta" in
  (Inj (=) (=) (@uuid4 Demo.collaborators) ∧ reachable init ∧
   Forall (λ f, is_pdf f = true) pre ∧
   Forall (λ f, plain_name (filename f) = true) pre ∧ is_pdf bad = false) ∧
  ∃ s', upload_pdf (pre ++ [bad]) init
        = (Raise (HTTPException 400 (py "Only PDF files are allowed: b.txt")), s') ∧
        length (pdf_metadata s') = 1%nat ∧
        length (background_tasks s') = 1%nat ∧
        s' ≠ init.
Proof.
  intros pre bad.
  assert (reachable init) as H1 by apply rtc_refl.
  assert (Forall (λ f, is_pdf f = true) pre) as H2
    by (constructor; [vm_compute; reflexivity|constructor]).
  assert (Forall (λ f, plain_name (filename f) = true) pre) as Hp
    by (constructor; [vm_compute; reflexivity|constructor]).
  assert (is_pdf bad = false) as H3 by (vm_compute; reflexivity).
  split; [exact (conj demo_uuid4_inj (conj H1 (conj H2 (conj Hp H3))))|].
  destruct (upload_batch_not_atomic pre [] bad init demo_uuid4_inj H1 H2 Hp H3)
    as (s' & Hr & Hpre & _ & Hlen & Hne).
  exists s'. split; [exact Hr|]. split; [exact Hlen|].
  split; [|apply Hne; discriminate].
  vm_compute in Hpre. injection Hpre as <-. reflexivity.
Defined.

Lemma upload_nested_name_raises_witness :
  let f := Demo.pdf "sub/x.pdf" "x" in
  (is_pdf f = true ∧ nested_name (filename f) = true) ∧
  ∃ s', upload_pdf [f] init = (Raise OSError, s') ∧
        http_status OSError = 500 ∧
        uploads s' !! id0 = Some ∅ ∧
        pdf_metadata s' = [] ∧ background_tasks s' = [].
Proof.
  intros f.
  assert (is_pdf f = true) as H1 by (vm_compute; reflexivity).
  assert (nested_name (filename f) = true) as H2 by (vm_compute; reflexivity).
  split; [exact (conj H1 H2)|].
  destruct (upload_nested_name_raises f [] init H1 H2)
    as (s' & Hu & Hstatus & _ & _ & Hdir & Hm & Ht).
  exists s'. split; [exact Hu|]. split; [exact Hstatus|].
  split; [|exact (conj Hm Ht)].
  rewrite Hdir. vm_compute. reflexivity.
Defined.

Lemma upload_batch_nested_name_raises_witness :
  let f := Demo.pdf "sub/x.pdf" "x" in
  let bad := Demo.pdf "notes.txt" "y" in
  (Inj (=) (=) (@uuid4 Demo.collaborators) ∧ reachable init ∧
   is_pdf f = true ∧ nested_name (filename f) = true ∧ is_pdf bad = false) ∧
  ∃ s', upload_pdf [f; bad] init = (Raise OSError, s') ∧
        http_status OSError = 500 ∧
        pdf_metadata s' = [] ∧ background_tasks s' = [].
Proof.
  intros f bad.
  assert (reachable init) as H1 by apply rtc_refl.
  assert (is_pdf f = true) as H2 by (vm_compute; reflexivity).
  assert (nested_name (filename f) = true) as H3 by (vm_compute; reflexivity).
  assert (is_pdf bad = false) as H4 by (vm_compute; reflexivity).
  split; [exact (conj demo_uuid4_inj (conj H1 (conj H2 (conj H3 H4))))|].
  destruct (upload_batch_nested_name_raises [] [bad] f init demo_uuid4_inj H1
              (List.Forall_nil _) (List.Forall_nil _) H2 H3)
    as (s' & Hu & Hstatus & Hm & Ht & _).
  exists s'. exact (conj Hu (conj Hstatus (conj Hm Ht))).
Defined.

(** ** The further theorems at concrete requests *)

Lemma s_ready_to_deleted : rtc step s_ready s_deleted.
Proof.
  unfold s_deleted, s_cached.
  eapply rtc_r; [|apply exec_delete_step]. apply rtc_once, exec_query_step.
Qed.

Lemma s_cached_reachable : reachable s_cached.
Proof.
  unfold reachable, s_cached.
  eapply rtc_r; [apply s_ready_reachable|apply exec_query_step].
Qed.

Lemma s_cached_to_deleted : rtc step s_cached s_deleted.
Proof. apply rtc_once, exec_delete_step. Qed.

Lemma s_cached_to_asked_twice : rtc step s_cached s_asked_twice.
Proof. apply rtc_once, exec_query_step. Qed.

Lemma merge_vector_stores_self_witness :
  Forall (λ vs, vs = 0%nat) [0%nat; 0%nat] ∧
  merge_vector_stores [0%nat; 0%nat; 0%nat] s_ready = (Ok 0%nat, s_ready).
Proof.
  assert (Forall (λ vs, vs = 0%nat) [0%nat; 0%nat]) as H1 by (repeat constructor).
  split; [exact H1|]. exact (merge_vector_stores_self 0%nat [0%nat; 0%nat] s_ready H1).
Defined.

Lemma merge_vector_stores_inline_loop_witness :
(0%nat ∉ [1%nat]) ∧
  merge_vector_stores [0%nat; 1%nat] s_ready
  = (merge_all 0%nat [1%nat];; ret 0%nat) s_ready ∧
  deref (merge_vector_stores [0%nat; 1%nat] s_ready).2 0
  = alpha_beta ++ [{| page_content := py "gamma" |}].
Proof.
  assert (0%nat ∉ [1%nat]) as H1
    by (intros Hin%list_elem_of_singleton; discriminate).
  split; [exact H1|].
  destruct (merge_vector_stores_inline_loop s_ready) as (_ & Hm).
  split; [exact (Hm 0%nat [1%nat] H1)|].
  rewrite (Hm 0%nat [1%nat] H1). vm_compute. reflexivity.
Defined.

Lemma create_vector_store_round_trip_witness :
  create_vector_store (py "alpha|beta") id0 init = (Ok 0%nat, s_created) ∧
  deref s_created 0 = alpha_beta ∧
  embeddings s_created !! id0 = Some (deref s_created 0).
Proof.
  assert (create_vector_store (py "alpha|beta") id0 init = (Ok 0%nat, s_created))
    as H1 by (vm_compute; reflexivity).
  split; [exact H1|].
  destruct (create_vector_store_round_trip (py "alpha|beta") id0 0%nat init s_created H1)
    as (Hc & He & _).
  split; [|exact He]. refine (eq_trans Hc _). vm_compute. reflexivity.
Defined.

Lemma process_pdf_makes_ready_witness :
  process_pdf a_path id0 s_uploaded = (Ok tt, s_first_ready) ∧
  resolve (canonical_key [id0]) s_first_ready = (Ok 0%nat, s_first_ready).
Proof.
  assert (process_pdf a_path id0 s_uploaded = (Ok tt, s_first_ready)) as H1
    by (vm_compute; reflexivity).
  split; [exact H1|].
  destruct (process_pdf_makes_ready a_path id0 s_uploaded s_first_ready H1)
    as (_ & _ & _ & _ & Hr).
  exact Hr.
Defined.

Lemma process_pdf_failure_changes_nothing_witness :
  let e := HTTPException 500 (py "Error extracting text: no such file") in
  process_pdf a_path id0 init = (Raise e, init) ∧ http_status e = 500.
Proof.
  intros e.
  assert (process_pdf a_path id0 init = (Raise e, init)) as H1
    by (vm_compute; reflexivity).
  split; [exact H1|].
  destruct (process_pdf_failure_changes_nothing a_path id0 e init init H1)
    as (_ & Hs & _).
  exact Hs.
Defined.

Lemma process_pdf_after_delete_witness :
  @to_markdown Demo.collaborators None = inr (py "no such file") ∧
  process_pdf a_path id0 (deleted id0 s_uploaded)
  = (Raise (HTTPException 500 (py "Error extracting text: " ++ py "no such file")),
     deleted id0 s_uploaded).
Proof.
  assert (@to_markdown Demo.collaborators None = inr (py "no such file")) as H1
    by reflexivity.
  split; [exact H1|].
  exact (process_pdf_after_delete id0 (py "a.PDF") (py "no such file") s_uploaded H1).
Defined.

Lemma pending_query_not_found_witness :
  let files := [Demo.pdf "a.pdf" "x"] in
  (Inj (=) (=) (@uuid4 Demo.collaborators) ∧ reachable init ∧
   Forall (λ f, is_pdf f = true) files ∧
   Forall (λ f, plain_name (filename f) = true) files ∧
   files !! 0%nat = Some (Demo.pdf "a.pdf" "x")) ∧
  ∃ s', upload_pdf files init
        = (Ok (imap (batch_response init) files), s') ∧
        query_document (ask [id0]) s'
        = (Raise (HTTPException 404 (py "Document not found")), s').
Proof.
  intros files.
  assert (reachable init) as H1 by apply rtc_refl.
  assert (Forall (λ f, is_pdf f = true) files) as H2
    by (constructor; [vm_compute; reflexivity|constructor]).
  assert (Forall (λ f, plain_name (filename f) = true) files) as Hp
    by (constructor; [vm_compute; reflexivity|constructor]).
  assert (files !! 0%nat = Some (Demo.pdf "a.pdf" "x")) as H3 by reflexivity.
  split; [exact (conj demo_uuid4_inj (conj H1 (conj H2 (conj Hp H3))))|].
  destruct (pending_query_not_found files 0%nat (Demo.pdf "a.pdf" "x") (py "hi")
              init demo_uuid4_inj H1 H2 Hp H3) as (s' & Hu & _ & Hq).
  exists s'. split; [exact Hu|exact Hq].
Defined.

Lemma list_documents_after_upload_witness :
  let files := [Demo.pdf "a.pdf" "xyz"] in
  (Inj (=) (=) (@uuid4 Demo.collaborators) ∧ reachable init ∧
   Forall (λ f, is_pdf f = true) files ∧
   Forall (λ f, plain_name (filename f) = true) files) ∧
  ∃ s', list_documents s'
        = (Ok [{| row_document_id := id0; row_filename := py "a.pdf";
                  row_upload_date := py "2024-01-01T00:00:00"; row_size := 3 |}],
           s').
Proof.
  intros files.
  assert (reachable init) as H1 by apply rtc_refl.
  assert (Forall (λ f, is_pdf f = true) files) as H2
    by (constructor; [vm_compute; reflexivity|constructor]).
  assert (Forall (λ f, plain_name (filename f) = true) files) as Hp
    by (constructor; [vm_compute; reflexivity|constructor]).
  split; [exact (conj demo_uuid4_inj (conj H1 (conj H2 Hp)))|].
  destruct (list_documents_after_upload files init demo_uuid4_inj H1 H2 Hp)
    as (s' & _ & Hl & _).
  exists s'. exact Hl.
Defined.




Lemma listing_ids_distinct_witness :
  reachable s_ready ∧
  ∃ rows, list_documents s_ready = (Ok rows, s_ready) ∧
          NoDup (row_document_id <$> rows).
Proof.
  split; [exact s_ready_reachable|].
  exact (listing_ids_distinct s_ready s_ready_reachable).
Defined.

Lemma no_dangling_index_witness :
  reachable s_deleted ∧
  (merged_vector_stores s_deleted !! [id0; id1] = Some 2%nat →
   is_Some (heap s_deleted !! 2%nat)).
Proof.
  split; [exact s_deleted_reachable|].
  destruct (no_dangling_index s_deleted s_deleted_reachable) as (_ & Hm).
  exact (Hm [id0; id1] 2%nat).
Defined.

Lemma document_chat_history_unused_witness :
  let entry := {| vector_store := 0%nat; chat_history := [] |} in
  (reachable s_deleted ∧ documents s_deleted !! id0 = Some entry) ∧
  chat_history entry = [].
Proof.
  intros entry.
  assert (documents s_deleted !! id0 = Some entry) as H1 by (vm_compute; reflexivity).
  split; [exact (conj s_deleted_reachable H1)|].
  exact (document_chat_history_unused s_deleted id0 entry s_deleted_reachable H1).
Defined.

Lemma live_index_matches_persisted_witness :
  let entry := {| vector_store := 0%nat; chat_history := [] |} in
  (reachable s_ready ∧ documents s_ready !! id0 = Some entry ∧
   embeddings s_ready !! id0 = Some alpha_beta) ∧
  deref s_ready 0 = alpha_beta.
Proof.
  intros entry.
  assert (documents s_ready !! id0 = Some entry) as H1 by (vm_compute; reflexivity).
  assert (embeddings s_ready !! id0 = Some alpha_beta) as H2
    by (vm_compute; reflexivity).
  split; [exact (conj s_ready_reachable (conj H1 H2))|].
  destruct (live_index_matches_persisted s_ready id0 entry alpha_beta
              s_ready_reachable H1 H2) as (Hd & _).
  exact Hd.
Defined.

Lemma index_objects_immutable_witness :
  (rtc step s_ready s_deleted ∧ heap s_ready !! 0%nat = Some alpha_beta) ∧
  heap s_deleted !! 0%nat = Some alpha_beta.
Proof.
  assert (heap s_ready !! 0%nat = Some alpha_beta) as H1 by (vm_compute; reflexivity).
  split; [exact (conj s_ready_to_deleted H1)|].
  exact (index_objects_immutable s_ready s_deleted 0%nat alpha_beta
           s_ready_to_deleted H1).
Defined.

Lemma session_cache_never_invalidated_witness :
  (reachable s_cached ∧ rtc step s_cached s_deleted ∧
   merged_vector_stores s_cached !! [id0; id1] = Some 2%nat) ∧
  resolve [id0; id1] s_deleted = (Ok 2%nat, s_deleted).
Proof.
  assert (merged_vector_stores s_cached !! [id0; id1] = Some 2%nat) as H1
    by (vm_compute; reflexivity).
  split; [exact (conj s_cached_reachable (conj s_cached_to_deleted H1))|].
  destruct (session_cache_never_invalidated s_cached s_deleted [id0; id1] 2%nat
              s_cached_reachable s_cached_to_deleted H1) as (_ & _ & Hr).
  exact Hr.
Defined.

Lemma documents_never_evicted_witness :
  (rtc step s_ready s_deleted ∧ is_Some (documents s_ready !! id1)) ∧
  ∃ entry, documents s_deleted !! id1 = Some entry ∧
           resolve (canonical_key [id1]) s_deleted
           = (Ok (vector_store entry), s_deleted).
Proof.
  assert (is_Some (documents s_ready !! id1)) as H1 by (vm_compute; eauto).
  split; [exact (conj s_ready_to_deleted H1)|].
  exact (documents_never_evicted s_ready s_deleted id1 s_ready_to_deleted H1).
Defined.

Lemma histories_only_grow_witness :
  let h := [(py "hi", py "re: hi")] in
  (rtc step s_cached s_asked_twice ∧
   multi_chat_histories s_cached !! [id0; id1] = Some h) ∧
  ∃ later, multi_chat_histories s_asked_twice !! [id0; id1] = Some (h ++ later).
Proof.
  intros h.
  assert (multi_chat_histories s_cached !! [id0; id1] = Some h) as H1
    by (vm_compute; reflexivity).
  split; [exact (conj s_cached_to_asked_twice H1)|].
  exact (histories_only_grow s_cached s_asked_twice [id0; id1] h
           s_cached_to_asked_twice H1).
Defined.

Lemma failed_query_keeps_history_witness :
  query_document (ask []) s_cached = (Raise IndexError, s_cached) ∧
  multi_chat_histories s_cached = multi_chat_histories s_cached.
Proof.
  assert (query_document (ask []) s_cached = (Raise IndexError, s_cached)) as H1
    by (vm_compute; reflexivity).
  split; [exact H1|].
  destruct (failed_query_keeps_history (ask []) IndexError s_cached s_cached H1)
    as (_ & Hh & _).
  exact Hh.
Defined.

Lemma sources_are_snippets_witness :
  query_document (ask [id1; id0; id1]) s_ready = (Ok response_hi, s_cached) ∧
  Forall (λ src, (length src ≤ 103)%nat ∧ py "..." `suffix_of` src)
    (sources response_hi).
Proof.
  assert (query_document (ask [id1; id0; id1]) s_ready = (Ok response_hi, s_cached))
    as H1 by (vm_compute; reflexivity).
  split; [exact H1|].
  exact (sources_are_snippets (ask [id1; id0; id1]) response_hi s_ready s_cached H1).
Defined.

Lemma restart_reloads_document_witness :
  let entry := {| vector_store := 0%nat; chat_history := [] |} in
  (reachable s_cached ∧ documents s_cached !! id0 = Some entry ∧
   embeddings s_cached !! id0 = Some alpha_beta) ∧
  ∃ s', resolve (canonical_key [id0]) (restart s_cached) = (Ok 0%nat, s') ∧
        deref s' 0 = deref s_cached 0 ∧ merged_vector_stores s' = ∅.
Proof.
  intros entry.
  assert (documents s_cached !! id0 = Some entry) as H1 by (vm_compute; reflexivity).
  assert (embeddings s_cached !! id0 = Some alpha_beta) as H2
    by (vm_compute; reflexivity).
  split; [exact (conj s_cached_reachable (conj H1 H2))|].
  destruct (restart_reloads_document s_cached id0 entry alpha_beta
              s_cached_reachable H1 H2) as (s' & Hr & Hd & _ & Hm & _).
  exists s'. exact (conj Hr (conj Hd Hm)).
Defined.

Lemma upload_id_collision_witness :
  (is_pdf (Demo.pdf "a.pdf" "x") = true ∧
   plain_name (filename (Demo.pdf "a.pdf" "x")) = true ∧
   upload_id s_collision ∈ row_document_id <$> pdf_metadata s_collision) ∧
  ∃ s', upload_pdf [Demo.pdf "a.pdf" "x"; Demo.pdf "b.pdf" "y"] s_collision
        = (Raise IntegrityError, s') ∧
        pdf_metadata s' = pdf_metadata s_collision ∧
        background_tasks s' = background_tasks s_collision.
Proof.
  assert (is_pdf (Demo.pdf "a.pdf" "x") = true) as H1 by (vm_compute; reflexivity).
  assert (plain_name (filename (Demo.pdf "a.pdf" "x")) = true) as Hp
    by (vm_compute; reflexivity).
  assert (upload_id s_collision ∈ row_document_id <$> pdf_metadata s_collision)
    as H2 by (vm_compute; left).
  split; [exact (conj H1 (conj Hp H2))|].
  destruct (upload_id_collision (Demo.pdf "a.pdf" "x") [Demo.pdf "b.pdf" "y"]
              s_collision H1 Hp H2) as (s' & Hu & _ & _ & Hm & Ht & _).
  exists s'. exact (conj Hu (conj Hm Ht)).
Defined.
